(** * A streaming JSON-to-XML transcoder: model and properties

    Shallow embedding of [main.go]: the [Converter] pulls lexical tokens
    from a [JSONDecoder] and hands out XML tokens one at a time; [Convert]
    wraps that stream in a [root] element and forwards it to an
    [XMLEncoder].  Go slices used as stacks are lists whose top is the last
    element; the two interfaces are type classes over an explicit state. *)

From Stdlib Require Import List String Ascii ZArith Bool Arith Lia.
From Stdlib Require Import SpecFloat DecimalString.
Import ListNotations.
Open Scope string_scope.
Open Scope list_scope.

Set Implicit Arguments.

(** ** Slices used as stacks *)

(** [s[len(s)-1]], guarded by [len(s) > 0]. *)
Fixpoint top {A : Type} (s : list A) : option A :=
  match s with
  | [] => None
  | [x] => Some x
  | _ :: s' => top s'
  end.

(** [s[:len(s)-1]]. *)
Definition pop {A : Type} (s : list A) : list A := removelast s.

(** ** Shared types and errors *)

Inductive ttype : Type :=
  | typObject | typArray | typBool | typNumber | typString | typNull.

Definition ttypeNames (typ : ttype) : string :=
  match typ with
  | typObject => "object"
  | typArray => "array"
  | typBool => "boolean"
  | typNumber => "number"
  | typString => "string"
  | typNull => "null"
  end.

(** [ttype_eqb] decides equality of kinds. *)
Definition ttype_eqb (a b : ttype) : bool :=
  match a, b with
  | typObject, typObject | typArray, typArray | typBool, typBool
  | typNumber, typNumber | typString, typString | typNull, typNull => true
  | _, _ => false
  end.

(** The three package errors, [io.EOF], and whatever else a decoder or an
    encoder may report. *)
Inductive error : Type :=
  | EOF
  | ErrInvalidKey
  | ErrUnknownToken
  | ErrInvalidToken
  | ErrOther (msg : string).

Definition is_EOF (e : error) : bool :=
  match e with EOF => true | _ => false end.

(** A [float64] is an IEEE-754 binary value. *)
Definition float64 : Type := spec_float.

(** [json.Token] is an empty interface: a delimiter (a rune), a bool, a
    float64, a [json.Number], a string, nil, or a value of any other
    dynamic type. *)
Inductive jtoken : Type :=
  | JDelim (r : Z)
  | JBool (b : bool)
  | JFloat (f : float64)
  | JNumber (s : string)
  | JString (s : string)
  | JNil
  | JOther.

Definition lbrace : Z := 123.   (* '{' *)
Definition rbrace : Z := 125.   (* '}' *)
Definition lbrack : Z := 91.    (* '[' *)
Definition rbrack : Z := 93.    (* ']' *)

(** [token == json.Delim('}')] on interface values. *)
Definition is_rbrace (token : jtoken) : bool :=
  match token with
  | JDelim r => Z.eqb r rbrace
  | _ => false
  end.

(** [xml.Token] as the converter builds it: only [Name.Local] is set. *)
Inductive xtoken : Type :=
  | StartElement (name : string)
  | EndElement (name : string)
  | CharData (text : string).

(** [strconv.FormatBool]. *)
Definition FormatBool (b : bool) : string :=
  if b then "true" else "false".

(** ** The two interfaces *)

(** [JSONDecoder]: [Token() (json.Token, error)] on a stateful source. *)
Class JSONDecoder (D : Type) : Type :=
  decoder_Token : D -> (jtoken * option error) * D.

(** [XMLEncoder]: [EncodeToken(xml.Token) error] on a stateful sink. *)
Class XMLEncoder (X : Type) : Type :=
  EncodeToken : xtoken -> X -> option error * X.

(** ** The converter *)

Record Converter (D : Type) : Type := mkConverter {
  decoder : D;
  types : list ttype;
  data : option string;
  keyNames : list string;
  arrayKeys : list string
}.

Arguments mkConverter {D} _ _ _ _ _.

Section Fields.
Context {D : Type}.

Definition set_decoder (c : Converter D) (d : D) : Converter D :=
  mkConverter d (types c) (data c) (keyNames c) (arrayKeys c).
Definition set_types (c : Converter D) (ts : list ttype) : Converter D :=
  mkConverter (decoder c) ts (data c) (keyNames c) (arrayKeys c).
Definition set_data (c : Converter D) (s : option string) : Converter D :=
  mkConverter (decoder c) (types c) s (keyNames c) (arrayKeys c).
Definition set_keyNames (c : Converter D) (ks : list string) : Converter D :=
  mkConverter (decoder c) (types c) (data c) ks (arrayKeys c).
Definition set_arrayKeys (c : Converter D) (ks : list string) : Converter D :=
  mkConverter (decoder c) (types c) (data c) (keyNames c) ks.

(** [Tokens]: a fresh converter, every stack nil. *)
Definition Tokens (j : D) : Converter D :=
  mkConverter j [] None [] [].

(** [len(c.arrayKeys) > 0 && lastKey == c.arrayKeys[len(c.arrayKeys)-1]]. *)
Definition bound_to (lastKey : string) (aks : list string) : bool :=
  match top aks with
  | Some ak => String.eqb lastKey ak
  | None => false
  end.

(** The first test of [outputEnd]: both stacks non-empty with equal
    tops; the name is read from [c.arrayKeys]. *)
Definition shared_name (ks aks : list string) : option string :=
  match top ks, top aks with
  | Some k, Some ak => if String.eqb k ak then Some ak else None
  | _, _ => None
  end.

Definition outputStart (typ : ttype) (c : Converter D)
  : xtoken * Converter D :=
  let c := set_types c (types c ++ [typ]) in
  match top (keyNames c) with
  | Some lastKey =>
      if bound_to lastKey (arrayKeys c)
      then (StartElement lastKey, c)
      else (StartElement lastKey, set_keyNames c (pop (keyNames c)))
  | None => (StartElement (ttypeNames typ), c)
  end.

Definition outputType (typ : ttype) (text : string) (c : Converter D)
  : xtoken * Converter D :=
  outputStart typ (set_data c (Some text)).

(** [outputEnd] indexes [c.types] without a check of its own: on an
    empty stack Go panics, here the result is [None]. *)
Definition outputEnd (c : Converter D) : option (xtoken * Converter D) :=
  match top (types c) with
  | None => None
  | Some typ =>
      let c := set_types c (pop (types c)) in
      match shared_name (keyNames c) (arrayKeys c) with
      | Some ak => Some (EndElement ak, c)
      | None =>
          match top (keyNames c) with
          | Some lastKey =>
              Some (EndElement lastKey, set_keyNames c (pop (keyNames c)))
          | None => Some (EndElement (ttypeNames typ), c)
          end
      end
  end.

(** What a pull hands back: [(xml.Token, error)] and the converter. *)
Definition pulled : Type := (option xtoken * option error) * Converter D.

Definition ret_token (r : xtoken * Converter D) : pulled :=
  (Some (fst r), None, snd r).

Definition ret_error (e : error) (c : Converter D) : pulled :=
  (None, Some e, c).

(** [return c.outputEnd(), nil].  Every call site has checked
    [len(c.types) > 0]; the second branch stands for the panic and is
    shown below never to be taken (lemma [Token_never_nil_nil]). *)
Definition ret_end (c : Converter D) : pulled :=
  match outputEnd c with
  | Some r => ret_token r
  | None => (None, None, c)
  end.

(** [len(c.types) > 0] with a top that is neither object nor array. *)
Definition scalar_on_top (ts : list ttype) : bool :=
  match top ts with
  | Some typObject | Some typArray | None => false
  | Some _ => true
  end.

(** [len(c.types) > 0 && c.types[len(c.types)-1] == typ]. *)
Definition top_is (typ : ttype) (ts : list ttype) : bool :=
  match top ts with
  | Some t => ttype_eqb t typ
  | None => false
  end.
End Fields.

Section Pull.
(** [strconv.FormatFloat(f, 'f', -1, 64)], from Go's library. *)
Variable FormatFloat : float64 -> string.

Context {D : Type} {JD : JSONDecoder D}.

(** The type switch of [Token] (its last forty lines). *)
Definition Token_switch (token : jtoken) (c : Converter D) : pulled :=
  match token with
  | JDelim r =>
      if Z.eqb r lbrace then ret_token (outputStart typObject c)
      else if Z.eqb r lbrack then
        let c := match top (keyNames c) with
                 | Some k => set_arrayKeys c (arrayKeys c ++ [k])
                 | None => c
                 end in
        ret_token (outputStart typArray c)
      else if Z.eqb r rbrace then
        if negb (top_is typObject (types c))
        then ret_error ErrInvalidToken c
        else ret_end c
      else if Z.eqb r rbrack then
        if negb (top_is typArray (types c))
        then ret_error ErrInvalidToken c
        else
          let c := match arrayKeys c with
                   | [] => c
                   | _ :: _ => set_arrayKeys c (pop (arrayKeys c))
                   end in
          ret_end c
      else ret_error ErrUnknownToken c
  | JBool b => ret_token (outputType typBool (FormatBool b) c)
  | JFloat f => ret_token (outputType typNumber (FormatFloat f) c)
  | JNumber s => ret_token (outputType typNumber s c)
  | JString s => ret_token (outputType typString s c)
  | JNil => ret_token (outputType typNull EmptyString c)
  | JOther => ret_error ErrUnknownToken c
  end.

(** [c.decoder.Token()], the decoder's new state stored back. *)
Definition read (c : Converter D) : (jtoken * option error) * Converter D :=
  let '(r, d) := decoder_Token (decoder c) in (r, set_decoder c d).

Definition Token (c : Converter D) : pulled :=
  match data c with
  | Some text => (Some (CharData text), None, set_data c None)
  | None =>
      if scalar_on_top (types c) then ret_end c
      else
        let '(token, err, c) := read c in
        match err with
        | Some e => ret_error e c
        | None =>
            if top_is typObject (types c) && negb (is_rbrace token)
            then
              match token with
              | JString tokenStr =>
                  let c := set_keyNames c (keyNames c ++ [tokenStr]) in
                  let '(token, err, c) := read c in
                  match err with
                  | Some e => ret_error e c
                  | None => Token_switch token c
                  end
              | _ => ret_error ErrInvalidKey c
              end
            else Token_switch token c
        end
  end.
End Pull.

(** ** The driver *)

Definition root : string := "root".

(** How the [for] loop of [Convert] is left. *)
Inductive loop_exit : Type :=
  | Break
  | Return (err : error).

Section Driver.
Variable FormatFloat : float64 -> string.
Context {D : Type} {JD : JSONDecoder D} {X : Type} {XE : XMLEncoder X}.

(** One turn of the loop: [inl] goes round again. *)
Definition loop_body (c : Converter D) (x : X)
  : (Converter D * X) + (loop_exit * X) :=
  let '(tk, err, c) := Token FormatFloat c in
  match err with
  | Some e => if is_EOF e then inr (Break, x) else inr (Return e, x)
  | None =>
      match tk with
      | Some t =>
          let '(err, x) := EncodeToken t x in
          match err with
          | Some e => inr (Return e, x)
          | None => inl (c, x)
          end
      | None => inl (c, x)
      end
  end.

(** The loop, bounded by [fuel]; [None] when the bound is reached. *)
Fixpoint Convert_loop (fuel : nat) (c : Converter D) (x : X)
  : option (loop_exit * X) :=
  match fuel with
  | O => None
  | S fuel' =>
      match loop_body c x with
      | inl (c', x') => Convert_loop fuel' c' x'
      | inr r => Some r
      end
  end.

(** [Convert]: the returned error and the sink as it is left. *)
Definition Convert (fuel : nat) (j : D) (x : X) : option (option error * X) :=
  let c := mkConverter j [] None [] [] in
  let '(err, x) := EncodeToken (StartElement root) x in
  match err with
  | Some e => Some (Some e, x)
  | None =>
      match Convert_loop fuel c x with
      | None => None
      | Some (Return e, x) => Some (Some e, x)
      | Some (Break, x) =>
          let '(err, x) := EncodeToken (EndElement root) x in
          match err with
          | Some e => Some (Some e, x)
          | None => Some (None, x)
          end
      end
  end.

(** The state in which the loop starts its turn number [i], if it gets
    that far. *)
Fixpoint turn (i : nat) (c : Converter D) (x : X) : option (Converter D * X) :=
  match i with
  | O => Some (c, x)
  | S i' =>
      match loop_body c x with
      | inl (c', x') => turn i' c' x'
      | inr _ => None
      end
  end.
End Driver.

(** ** Concrete sources and sinks *)

(** A decoder that replays a list of tokens and then reports [io.EOF],
    as [json.Decoder] does at the end of its input. *)
#[export] Instance Script : JSONDecoder (list jtoken) :=
  fun d =>
    match d with
    | [] => (JNil, Some EOF, [])
    | t :: d' => (t, None, d')
    end.

(** A sink that accepts every token and keeps them in order. *)
Record Recorder : Type := mkRecorder { written : list xtoken }.

#[export] Instance Recorder_encoder : XMLEncoder Recorder :=
  fun t x => (None, mkRecorder (written x ++ [t])).

(** A sink that accepts [budget] tokens and refuses the following ones. *)
Record Limited : Type := mkLimited { budget : nat; accepted : list xtoken }.

Definition short_write : error := ErrOther "short write".

#[export] Instance Limited_encoder : XMLEncoder Limited :=
  fun t x =>
    match budget x with
    | O => (Some short_write, x)
    | S n => (None, mkLimited n (accepted x ++ [t]))
    end.

(** Any sink, with a log of the calls made to it and what they returned. *)
Record Logged (X : Type) : Type := mkLogged {
  inner : X;
  calls : list (xtoken * option error)
}.

Arguments mkLogged {X} _ _.

#[export] Instance Logged_encoder {X : Type} {XE : XMLEncoder X}
  : XMLEncoder (Logged X) :=
  fun t x =>
    let '(err, x') := EncodeToken t (inner x) in
    (err, mkLogged x' (calls x ++ [(t, err)])).

(** A token sequence written out without indentation or escaping. *)
Definition render_token (t : xtoken) : string :=
  match t with
  | StartElement n => ("<" ++ n ++ ">")%string
  | EndElement n => ("</" ++ n ++ ">")%string
  | CharData s => s
  end.

Definition render (ts : list xtoken) : string :=
  fold_right (fun t acc => (render_token t ++ acc)%string) EmptyString ts.

(** ** JSON documents and their token streams *)

#[warnings="-register-all"]
Inductive jvalue : Type :=
  | VObject (members : list (string * jvalue))
  | VArray (elems : list jvalue)
  | VBool (b : bool)
  | VFloat (f : float64)
  | VNumber (s : string)
  | VString (s : string)
  | VNull.

(** The tokens [json.Decoder.Token] yields for a document: delimiters,
    keys, and scalars; commas and colons are not reported. *)
Fixpoint tokens_of (v : jvalue) : list jtoken :=
  match v with
  | VObject ms =>
      JDelim lbrace ::
      flat_map (fun kv => JString (fst kv) :: tokens_of (snd kv)) ms
      ++ [JDelim rbrace]
  | VArray vs => JDelim lbrack :: flat_map tokens_of vs ++ [JDelim rbrack]
  | VBool b => [JBool b]
  | VFloat f => [JFloat f]
  | VNumber s => [JNumber s]
  | VString s => [JString s]
  | VNull => [JNil]
  end.

(** The tokens between the braces of an object. *)
Definition members_tokens (ms : list (string * jvalue)) : list jtoken :=
  flat_map (fun kv => JString (fst kv) :: tokens_of (snd kv)) ms.

(** The tokens between the brackets of an array. *)
Definition elems_tokens (vs : list jvalue) : list jtoken :=
  flat_map tokens_of vs.

(** The kind of a document's root value. *)
Definition kind_of (v : jvalue) : ttype :=
  match v with
  | VObject _ => typObject
  | VArray _ => typArray
  | VBool _ => typBool
  | VFloat _ | VNumber _ => typNumber
  | VString _ => typString
  | VNull => typNull
  end.

(** Documents with no array in them. *)
Fixpoint array_free (v : jvalue) : bool :=
  match v with
  | VObject ms => forallb (fun kv => array_free (snd kv)) ms
  | VArray _ => false
  | _ => true
  end.

(** The float64 nearest to an integer. *)
Definition float64_of_Z (z : Z) : float64 :=
  binary_normalize 53 1024 z 0 false.

(** A stand-in for [strconv.FormatFloat(f, 'f', -1, 64)] that agrees with
    it on zeros, infinities, NaN and integers below 2^53 in magnitude;
    it cuts fractions off, which the library routine does not. *)
Definition FormatFloat_integral (f : float64) : string :=
  match f with
  | S754_zero s => if s then "-0" else "0"
  | S754_infinity s => if s then "-Inf" else "+Inf"
  | S754_nan => "NaN"
  | S754_finite s m e =>
      let mag := if Z.leb 0 e then Z.pos m * 2 ^ e
                 else Z.pos m / 2 ^ (- e) in
      ((if s then "-" else EmptyString)
       ++ NilZero.string_of_int (Z.to_int mag))%string
  end%Z.

(** A second decoder over the same token list: it keeps the whole buffer
    and a read position instead of consuming the list. *)
Record Cursor : Type := mkCursor { buffer : list jtoken; position : nat }.

#[export] Instance Cursor_decoder : JSONDecoder Cursor :=
  fun d =>
    match nth_error (buffer d) (position d) with
    | Some t => (t, None, mkCursor (buffer d) (S (position d)))
    | None => (JNil, Some EOF, d)
    end.

(** The first [n] answers of a decoder. *)
Fixpoint observe {D : Type} {JD : JSONDecoder D} (n : nat) (d : D)
  : list (jtoken * option error) :=
  match n with
  | O => []
  | S n' => let '(r, d') := decoder_Token d in r :: observe n' d'
  end.

(** ** Runs of the converter *)

Section Runs.
Variable FormatFloat : float64 -> string.
Context {D : Type} {JD : JSONDecoder D}.

(** [pulls c out c']: pulling from [c] yields the tokens [out], without
    error, and leaves the converter as [c']. *)
Inductive pulls : Converter D -> list xtoken -> Converter D -> Prop :=
| pulls_done : forall c, pulls c [] c
| pulls_step : forall c t c1 out c2,
    Token FormatFloat c = (Some t, None, c1) ->
    pulls c1 out c2 ->
    pulls c (t :: out) c2.

(** Pull until the first error: the tokens handed out, that error, and
    the converter as it is left. *)
Fixpoint drain (fuel : nat) (c : Converter D)
  : option (list xtoken * error * Converter D) :=
  match fuel with
  | O => None
  | S fuel' =>
      match Token FormatFloat c with
      | (_, Some e, c') => Some ([], e, c')
      | (Some t, None, c') =>
          match drain fuel' c' with
          | Some (out, e, c'') => Some (t :: out, e, c'')
          | None => None
          end
      | (None, None, c') => drain fuel' c'
      end
  end.

(** The converter after [n] pulls, whatever they returned. *)
Fixpoint after (n : nat) (c : Converter D) : Converter D :=
  match n with
  | O => c
  | S n' => after n' (snd (Token FormatFloat c))
  end.

(** The frame and text a scalar token opens (the scalar cases of the
    type switch). *)
Definition scalar_frame (token : jtoken) : option (ttype * string) :=
  match token with
  | JBool b => Some (typBool, FormatBool b)
  | JFloat f => Some (typNumber, FormatFloat f)
  | JNumber s => Some (typNumber, s)
  | JString s => Some (typString, s)
  | JNil => Some (typNull, EmptyString)
  | JDelim _ | JOther => None
  end.
End Runs.

(** ** Relations used in the proofs *)

(** What the type switch starts on the first token of a document is
    finished by the pulls that follow: the frame stack is back where it
    was and the document's tokens are consumed. *)
Definition completes (FormatFloat : float64 -> string) (v : jvalue) : Prop :=
  forall (cm : Converter (list jtoken)) t ts rest,
    tokens_of v = t :: ts ->
    data cm = None ->
    decoder cm = ts ++ rest ->
    exists out c',
      (exists tk c1, Token_switch FormatFloat t cm = (Some tk, None, c1)
                     /\ pulls FormatFloat c1 out c')
      /\ types c' = types cm /\ data c' = None /\ decoder c' = rest.

(** An array-free document whose first token meets the type switch with
    no array binding and at most its own key pending: it is opened under
    that key, or under its kind's name if there is none; it is closed
    under its kind's name, and both key stacks are then empty. *)
Definition closes_by_kind (FormatFloat : float64 -> string) (v : jvalue)
  : Prop :=
  forall (T : list ttype) (ks : list string) t ts rest,
    tokens_of v = t :: ts ->
    ks = [] \/ (exists k, ks = [k]) ->
    exists c1 mid,
      Token_switch FormatFloat t (mkConverter (ts ++ rest) T None ks [])
      = (Some (StartElement match ks with
                            | [] => ttypeNames (kind_of v)
                            | k :: _ => k
                            end), None, c1)
      /\ pulls FormatFloat c1 (mid ++ [EndElement (ttypeNames (kind_of v))])
            (mkConverter rest T None [] []).

Section Alike.
Context {D1 : Type} {JD1 : JSONDecoder D1} {D2 : Type} {JD2 : JSONDecoder D2}.

(** Two decoders that give the same answers, call after call. *)
Definition same_answers (d1 : D1) (d2 : D2) : Prop :=
  forall n, observe n d1 = observe n d2.

(** The converter [c] with its decoder replaced. *)
Definition redecode (c : Converter D1) (d : D2) : Converter D2 :=
  mkConverter d (types c) (data c) (keyNames c) (arrayKeys c).

(** Converters alike in all but the decoder, the decoders giving the same
    answers. *)
Definition alike (c1 : Converter D1) (c2 : Converter D2) : Prop :=
  same_answers (decoder c1) (decoder c2) /\ c2 = redecode c1 (decoder c2).
End Alike.

(** A bound on the pulls a converter over a token list can still make. *)
Definition pulls_left (c : Converter (list jtoken)) : nat :=
  3 * List.length (decoder c) + List.length (types c)
  + match data c with Some _ => 1 | None => 0 end.

(** A property shown for every element holds throughout a list. *)
Definition Forall_of {A : Type} (P : A -> Prop) (every : forall a, P a)
  : forall l : list A, Forall P l :=
  fix through (l : list A) : Forall P l :=
    match l with
    | [] => Forall_nil P
    | a :: l' => Forall_cons a (every a) (through l')
    end.

(** Induction on documents, with the hypothesis available for every
    member and element. *)
Section JvalueInduction.
Variable P : jvalue -> Prop.
Hypothesis HObject :
  forall ms, Forall (fun kv => P (snd kv)) ms -> P (VObject ms).
Hypothesis HArray : forall vs, Forall P vs -> P (VArray vs).
Hypothesis HBool : forall b, P (VBool b).
Hypothesis HFloat : forall f, P (VFloat f).
Hypothesis HNumber : forall s, P (VNumber s).
Hypothesis HString : forall s, P (VString s).
Hypothesis HNull : P VNull.

Fixpoint jvalue_induction (v : jvalue) : P v :=
  match v with
  | VObject ms =>
      HObject (Forall_of (fun kv => P (snd kv))
                 (fun kv => jvalue_induction (snd kv)) ms)
  | VArray vs => HArray (Forall_of P jvalue_induction vs)
  | VBool b => HBool b
  | VFloat f => HFloat f
  | VNumber s => HNumber s
  | VString s => HString s
  | VNull => HNull
  end.
End JvalueInduction.

(** ** Three documents *)

(** [{"tags":["x","y"]}], [{"a":1}] and [[1,2,3]] as token streams; a
    number token is a float64 or a [json.Number], as the decoder is set
    up. *)
Definition tags_tokens : list jtoken :=
  tokens_of (VObject [("tags", VArray [VString "x"; VString "y"])]).

Definition a_tokens (n1 : jtoken) : list jtoken :=
  [JDelim lbrace; JString "a"; n1; JDelim rbrace].

Definition array_tokens (n1 n2 n3 : jtoken) : list jtoken :=
  [JDelim lbrack; n1; n2; n3; JDelim rbrack].

Definition tags_output : list xtoken :=
  [StartElement "root"; StartElement "object"; StartElement "tags";
   StartElement "tags"; CharData "x"; EndElement "tags";
   StartElement "tags"; CharData "y"; EndElement "tags";
   EndElement "tags"; EndElement "object"; EndElement "root"].

Definition a_output : list xtoken :=
  [StartElement "root"; StartElement "object"; StartElement "a";
   CharData "1"; EndElement "number"; EndElement "object";
   EndElement "root"].

Definition array_output : list xtoken :=
  [StartElement "root"; StartElement "array";
   StartElement "number"; CharData "1"; EndElement "number";
   StartElement "number"; CharData "2"; EndElement "number";
   StartElement "number"; CharData "3"; EndElement "number";
   EndElement "array"; EndElement "root"].

(** ** Proof steps *)

(** Reduce the field projections of updated converters. *)
Ltac fields :=
  cbn [set_decoder set_types set_data set_keyNames set_arrayKeys
       decoder types data keyNames arrayKeys] in *.

(** Split on the tests made by the type switch and by the naming rule. *)
Ltac by_cases :=
  repeat (fields;
          match goal with
          | |- context [Z.eqb ?a ?b] => destruct (Z.eqb a b)
          | |- context [match ?l with [] => _ | _ :: _ => _ end] =>
              is_var l; destruct l
          | |- context [top ?l] => is_var l; destruct (top l)
          | |- context [top_is ?a ?b] => destruct (top_is a b)
          | |- context [shared_name ?a ?b] => destruct (shared_name a b)
          | |- context [bound_to ?a ?b] => destruct (bound_to a b)
          end);
  reflexivity.

(** A token known to open a number frame is a float64 or a
    [json.Number]: split on which, with the equation for its text. *)
Ltac number_token H :=
  match type of H with
  | scalar_frame _ ?n = Some _ =>
      destruct n; try discriminate H; cbn [scalar_frame] in H;
      injection H as H
  end.

(** ** Measures and shapes used by further properties *)

(** Start and end tags in a token sequence. *)
Definition starts (out : list xtoken) : nat :=
  List.length (filter (fun t => match t with StartElement _ => true
                                         | _ => false end) out).

Definition ends (out : list xtoken) : nat :=
  List.length (filter (fun t => match t with EndElement _ => true
                                         | _ => false end) out).

Definition is_container (typ : ttype) : bool :=
  match typ with typObject | typArray => true | _ => false end.

(** Only the top frame may be a scalar, and a text is pending only while
    one is. *)
Definition tidy {D : Type} (c : Converter D) : Prop :=
  forallb is_container (pop (types c)) = true
  /\ (data c <> None -> scalar_on_top (types c) = true).

(** The arrays among the open frames. *)
Definition open_arrays (ts : list ttype) : nat :=
  List.length (filter (fun typ => ttype_eqb typ typArray) ts).

(** The tokens the type switch rejects: a delimiter other than the four
    brackets, or a value of an unexpected dynamic type. *)
Definition unknown (token : jtoken) : bool :=
  match token with
  | JDelim r =>
      negb (Z.eqb r lbrace) && negb (Z.eqb r lbrack)
      && negb (Z.eqb r rbrace) && negb (Z.eqb r rbrack)
  | JOther => true
  | _ => false
  end.

(** *** A reference rendering *)

Definition is_array (v : jvalue) : bool :=
  match v with VArray _ => true | _ => false end.

Definition is_scalar_value (v : jvalue) : bool :=
  match v with VObject _ | VArray _ => false | _ => true end.

Definition elems_of (v : jvalue) : list jvalue :=
  match v with VArray vs => vs | _ => [] end.

(** The text of a scalar, as the type switch formats it. *)
Definition text_of (FormatFloat : float64 -> string) (v : jvalue) : string :=
  match v with
  | VBool b => FormatBool b
  | VFloat f => FormatFloat f
  | VNumber s => s
  | VString s => s
  | _ => EmptyString
  end.

(** The scalars of an array bound to the key [k]. *)
Definition bound_elems (FormatFloat : float64 -> string) (k : string)
    (vs : list jvalue) : list xtoken :=
  flat_map (fun s => [StartElement k; CharData (text_of FormatFloat s);
                      EndElement k]) vs.

(** The element written for [v] under the start name [name]: closed under
    the name of its kind; a field that is an array is opened and closed
    under its key, and so is each of its elements. *)
Fixpoint xml_of (FormatFloat : float64 -> string) (name : string)
    (v : jvalue) : list xtoken :=
  match v with
  | VObject ms =>
      StartElement name ::
      flat_map (fun kv =>
                  if is_array (snd kv)
                  then StartElement (fst kv) ::
                       bound_elems FormatFloat (fst kv) (elems_of (snd kv))
                       ++ [EndElement (fst kv)]
                  else xml_of FormatFloat (fst kv) (snd kv)) ms
      ++ [EndElement (ttypeNames typObject)]
  | VArray vs =>
      StartElement name ::
      flat_map (fun v' => xml_of FormatFloat (ttypeNames (kind_of v')) v') vs
      ++ [EndElement (ttypeNames typArray)]
  | _ => [StartElement name; CharData (text_of FormatFloat v);
          EndElement (ttypeNames (kind_of v))]
  end.

(** Documents in which an array that is the value of a field holds
    scalars only. *)
Fixpoint tame (v : jvalue) : bool :=
  match v with
  | VObject ms =>
      forallb (fun kv =>
                 if is_array (snd kv)
                 then forallb is_scalar_value (elems_of (snd kv))
                 else tame (snd kv)) ms
  | VArray vs => forallb tame vs
  | _ => true
  end.

(** A tame document whose first token meets the type switch with no array
    binding and at most its own key pending is written as [xml_of] says,
    and both key stacks are then empty. *)
Definition renders (FormatFloat : float64 -> string) (v : jvalue) : Prop :=
  forall (T : list ttype) (ks : list string) t ts rest,
    tokens_of v = t :: ts ->
    ks = [] \/ (exists k, ks = [k] /\ is_array v = false) ->
    let name := match ks with
                | [] => ttypeNames (kind_of v)
                | k :: _ => k
                end in
    exists c1 out,
      Token_switch FormatFloat t (mkConverter (ts ++ rest) T None ks [])
      = (Some (StartElement name), None, c1)
      /\ pulls FormatFloat c1 out (mkConverter rest T None [] [])
      /\ StartElement name :: out = xml_of FormatFloat name v.

(** What is asked of a field of a tame object: an array of scalars, or a
    value that is rendered. *)
Definition tame_field (FormatFloat : float64 -> string)
    (kv : string * jvalue) : Prop :=
  if is_array (snd kv)
  then forallb is_scalar_value (elems_of (snd kv)) = true
  else renders FormatFloat (snd kv).

(** The tokens [xml_of] writes for a field. *)
Definition field_xml (FormatFloat : float64 -> string)
    (kv : string * jvalue) : list xtoken :=
  if is_array (snd kv)
  then StartElement (fst kv) ::
       bound_elems FormatFloat (fst kv) (elems_of (snd kv))
       ++ [EndElement (fst kv)]
  else xml_of FormatFloat (fst kv) (snd kv).

(** *** A sample run *)

(** The tokens of [{"a":[1]}], the number as a [json.Number]. *)
Definition sample_tokens : list jtoken :=
  tokens_of (VObject [("a", VArray [VNumber "1"])]).

(** The converter three pulls in: the object, the array and the number
    are open, the text of the number is pending. *)
Definition sample_state : Converter (list jtoken) :=
  mkConverter [JDelim rbrack; JDelim rbrace]
    [typObject; typArray; typNumber] (Some "1") ["a"] ["a"].

(** * Properties *)

(** ** Stacks *)

Lemma top_snoc {A : Type} (s : list A) (x : A) : top (s ++ [x]) = Some x.
Proof.
  induction s as [|y s IH]; [reflexivity|].
  simpl. destruct (s ++ [x]) eqn:E; [|exact IH].
  destruct s; discriminate.
Qed.

Lemma pop_snoc {A : Type} (s : list A) (x : A) : pop (s ++ [x]) = s.
Proof. unfold pop. apply removelast_last. Qed.

Lemma top_None {A : Type} (s : list A) : top s = None -> s = [].
Proof.
  induction s as [|y s IH]; [reflexivity|].
  simpl. destruct s; [discriminate|]. intro H. specialize (IH H). discriminate.
Qed.

Lemma top_Some_snoc {A : Type} (s : list A) (x : A) :
  top s = Some x -> s = pop s ++ [x].
Proof.
  intro H. destruct (exists_last (l := s)) as (s' & y & ->).
  - intros ->. discriminate.
  - rewrite top_snoc in H. injection H as ->. now rewrite pop_snoc.
Qed.

Lemma length_pop {A : Type} (s : list A) (x : A) :
  top s = Some x -> List.length s = S (List.length (pop s)).
Proof.
  intro H. rewrite (top_Some_snoc _ H) at 1.
  rewrite length_app. simpl. lia.
Qed.

Lemma scalar_on_top_snoc (ts : list ttype) (typ : ttype) :
  scalar_on_top (ts ++ [typ]) =
  match typ with typObject | typArray => false | _ => true end.
Proof. unfold scalar_on_top. rewrite top_snoc. reflexivity. Qed.

Lemma top_is_snoc (typ typ' : ttype) (ts : list ttype) :
  top_is typ (ts ++ [typ']) = ttype_eqb typ' typ.
Proof. unfold top_is. now rewrite top_snoc. Qed.

Lemma top_is_Some (typ : ttype) (ts : list ttype) :
  top ts = Some typ -> top_is typ ts = true.
Proof. unfold top_is. intros ->. now destruct typ. Qed.

Lemma top_is_true (typ : ttype) (ts : list ttype) :
  top_is typ ts = true -> top ts = Some typ.
Proof.
  unfold top_is. destruct (top ts) as [t|]; [|discriminate].
  destruct t, typ; simpl; congruence.
Qed.

(** ** Single pulls *)

Section PullFacts.
Variable FormatFloat : float64 -> string.
Context {D : Type} {JD : JSONDecoder D}.

Lemma outputEnd_Some (c : Converter D) typ :
  top (types c) = Some typ -> exists r, outputEnd c = Some r.
Proof.
  intro H. unfold outputEnd. rewrite H.
  destruct (shared_name _ _); [eauto|].
  destruct (top (keyNames _)); eauto.
Qed.

Lemma ret_end_emits (c : Converter D) typ :
  top (types c) = Some typ ->
  exists t c', ret_end c = (Some t, None, c') /\ outputEnd c = Some (t, c').
Proof.
  intro H. destruct (outputEnd_Some c H) as ([t c'] & E).
  exists t, c'. unfold ret_end. now rewrite E.
Qed.

Lemma ret_end_not_nil (c : Converter D) typ :
  top (types c) = Some typ -> fst (ret_end c) <> (None, None).
Proof.
  intro H. destruct (ret_end_emits c H) as (t & c' & -> & _). discriminate.
Qed.

Lemma Token_switch_never_nil_nil token (c : Converter D) :
  fst (Token_switch FormatFloat token c) <> (None, None).
Proof.
  unfold Token_switch. destruct token; try discriminate.
  destruct (Z.eqb r lbrace); [discriminate|].
  destruct (Z.eqb r lbrack); [discriminate|].
  destruct (Z.eqb r rbrace).
  - destruct (top_is typObject (types c)) eqn:Ht; [|discriminate].
    apply top_is_true in Ht. now apply ret_end_not_nil with typObject.
  - destruct (Z.eqb r rbrack); [|discriminate].
    destruct (top_is typArray (types c)) eqn:Ht; [|discriminate].
    apply top_is_true in Ht. apply ret_end_not_nil with typArray.
    now destruct (arrayKeys c).
Qed.

(** A pull never returns both a nil token and a nil error: the
    unchecked index of [outputEnd] is never reached on an empty stack,
    and the nil test in the loop of [Convert] always succeeds. *)
Lemma Token_never_nil_nil (c : Converter D) :
  fst (Token FormatFloat c) <> (None, None).
Proof.
  unfold Token. destruct (data c); [discriminate|].
  destruct (scalar_on_top (types c)) eqn:Hs.
  - unfold scalar_on_top in Hs.
    destruct (top (types c)) as [typ|] eqn:Ht; [|discriminate].
    now apply ret_end_not_nil with typ.
  - unfold read. destruct (decoder_Token (decoder c)) as [[token err] d].
    destruct err; [discriminate|].
    destruct (top_is typObject _ && negb (is_rbrace token)).
    + destruct token; try discriminate.
      cbn [decoder set_keyNames set_decoder].
      destruct (decoder_Token d) as [[token' err'] d'].
      destruct err'; [discriminate|]. apply Token_switch_never_nil_nil.
    + apply Token_switch_never_nil_nil.
Qed.

(** A pull that goes to the source: no pending text, no open scalar. *)
Lemma Token_reads (c : Converter D) :
  data c = None -> scalar_on_top (types c) = false ->
  Token FormatFloat c =
  let '(token, err, c) := read c in
  match err with
  | Some e => ret_error e c
  | None =>
      if top_is typObject (types c) && negb (is_rbrace token)
      then
        match token with
        | JString tokenStr =>
            let c := set_keyNames c (keyNames c ++ [tokenStr]) in
            let '(token, err, c) := read c in
            match err with
            | Some e => ret_error e c
            | None => Token_switch FormatFloat token c
            end
        | _ => ret_error ErrInvalidKey c
        end
      else Token_switch FormatFloat token c
  end.
Proof. intros Hd Hs. unfold Token. now rewrite Hd, Hs. Qed.

Lemma scalar_on_top_Object (ts : list ttype) :
  top ts = Some typObject -> scalar_on_top ts = false.
Proof. unfold scalar_on_top. now intros ->. Qed.

(** The delimiter cases of the type switch, one by one. *)
Lemma Token_switch_lbrace (c : Converter D) :
  Token_switch FormatFloat (JDelim lbrace) c
  = ret_token (outputStart typObject c).
Proof. reflexivity. Qed.

Lemma Token_switch_lbrack (c : Converter D) :
  Token_switch FormatFloat (JDelim lbrack) c
  = ret_token (outputStart typArray
                 match top (keyNames c) with
                 | Some k => set_arrayKeys c (arrayKeys c ++ [k])
                 | None => c
                 end).
Proof. reflexivity. Qed.

Lemma Token_switch_rbrace (c : Converter D) :
  Token_switch FormatFloat (JDelim rbrace) c
  = if negb (top_is typObject (types c))
    then ret_error ErrInvalidToken c else ret_end c.
Proof. reflexivity. Qed.

Lemma Token_switch_rbrack (c : Converter D) :
  Token_switch FormatFloat (JDelim rbrack) c
  = if negb (top_is typArray (types c))
    then ret_error ErrInvalidToken c
    else ret_end match arrayKeys c with
                 | [] => c
                 | _ :: _ => set_arrayKeys c (pop (arrayKeys c))
                 end.
Proof. reflexivity. Qed.

Lemma Token_switch_scalar token typ text (c : Converter D) :
  scalar_frame FormatFloat token = Some (typ, text) ->
  Token_switch FormatFloat token c = ret_token (outputType typ text c).
Proof.
  destruct token; try discriminate; cbn; intro H; injection H as <- <-;
    reflexivity.
Qed.

Lemma scalar_frame_kind token typ text :
  scalar_frame FormatFloat token = Some (typ, text) ->
  match typ with typObject | typArray => false | _ => true end = true.
Proof.
  destruct token; try discriminate; cbn; intro H; injection H as <- _;
    reflexivity.
Qed.

(** The pull that reads a key and then the first token of its value. *)
Lemma Token_key (c : Converter D) k token d1 d2 :
  data c = None ->
  top (types c) = Some typObject ->
  decoder_Token (decoder c) = (JString k, None, d1) ->
  decoder_Token d1 = (token, None, d2) ->
  Token FormatFloat c =
  Token_switch FormatFloat token
    (mkConverter d2 (types c) None (keyNames c ++ [k]) (arrayKeys c)).
Proof.
  intros Hd Ht Hr1 Hr2.
  rewrite Token_reads by auto using scalar_on_top_Object.
  unfold read. rewrite Hr1. fields.
  rewrite (top_is_Some _ Ht). cbn [is_rbrace negb andb].
  rewrite Hr2. unfold set_decoder, set_keyNames. fields. now rewrite Hd.
Qed.

(** The pull that reads a token where no key is expected. *)
Lemma Token_plain (c : Converter D) token d1 :
  data c = None ->
  decoder_Token (decoder c) = (token, None, d1) ->
  scalar_on_top (types c) = false ->
  top_is typObject (types c) && negb (is_rbrace token) = false ->
  Token FormatFloat c =
  Token_switch FormatFloat token
    (mkConverter d1 (types c) None (keyNames c) (arrayKeys c)).
Proof.
  intros Hd Hr Hs Ho. rewrite Token_reads by assumption.
  unfold read. rewrite Hr. fields. rewrite Ho.
  unfold set_decoder. now rewrite Hd.
Qed.

(** The pull that finds a scalar frame open and no text pending. *)
Lemma Token_closes_scalar (c : Converter D) :
  data c = None -> scalar_on_top (types c) = true ->
  Token FormatFloat c = ret_end c.
Proof. intros Hd Hs. unfold Token. now rewrite Hd, Hs. Qed.

(** C5. A pull that finds an object on top of the frame stack and
    reads from the source a token that is neither the end-of-object
    marker nor a string fails with [ErrInvalidKey]; it hands out no XML
    token, and only the decoder has moved. *)
Theorem Token_invalid_key (c : Converter D) (token : jtoken) (d' : D) :
  data c = None ->
  top (types c) = Some typObject ->
  decoder_Token (decoder c) = (token, None, d') ->
  is_rbrace token = false ->
  (forall s, token <> JString s) ->
  Token FormatFloat c = (None, Some ErrInvalidKey, set_decoder c d').
Proof.
  intros Hd Ht Hr Hb Hs.
  rewrite Token_reads by auto using scalar_on_top_Object.
  unfold read. rewrite Hr. cbn [types set_decoder].
  rewrite (top_is_Some _ Ht), Hb. simpl.
  destruct token; try reflexivity. now contradiction (Hs s).
Qed.
(** C6, as the code has it.  A pull that goes to the source and reads
    an end-of-object marker while the frame stack is empty or has
    something other than an object on top fails with [ErrInvalidToken];
    so does a pull that reads an end-of-array marker on an empty frame
    stack, or as the value that follows a key.  A pull that reads an
    end-of-array marker where an object expects a key fails with
    [ErrInvalidKey].  None of them hands out an XML token. *)
Theorem Token_unmatched_close (c : Converter D) :
  data c = None ->
  (forall d',
      scalar_on_top (types c) = false ->
      decoder_Token (decoder c) = (JDelim rbrace, None, d') ->
      top (types c) <> Some typObject ->
      Token FormatFloat c = (None, Some ErrInvalidToken, set_decoder c d'))
  /\ (forall d',
      decoder_Token (decoder c) = (JDelim rbrack, None, d') ->
      types c = [] ->
      Token FormatFloat c = (None, Some ErrInvalidToken, set_decoder c d'))
  /\ (forall k d1 d2,
      decoder_Token (decoder c) = (JString k, None, d1) ->
      decoder_Token d1 = (JDelim rbrack, None, d2) ->
      top (types c) = Some typObject ->
      Token FormatFloat c =
      (None, Some ErrInvalidToken,
       mkConverter d2 (types c) None (keyNames c ++ [k]) (arrayKeys c)))
  /\ (forall d',
      decoder_Token (decoder c) = (JDelim rbrack, None, d') ->
      top (types c) = Some typObject ->
      Token FormatFloat c = (None, Some ErrInvalidKey, set_decoder c d')).
Proof.
  intro Hd. split; [|split; [|split]].
  - intros d' Hs Hr Ht.
    assert (Ho : top_is typObject (types c) = false).
    { destruct (top_is typObject (types c)) eqn:E; [|reflexivity].
      now apply top_is_true in E. }
    rewrite (Token_plain c Hd Hr) by (try assumption; now rewrite Ho).
    rewrite Token_switch_rbrace. fields. rewrite Ho.
    unfold set_decoder. now rewrite Hd.
  - intros d' Hr Ht.
    rewrite (Token_plain c Hd Hr) by now rewrite Ht.
    rewrite Token_switch_rbrack. fields. rewrite Ht.
    unfold set_decoder. now rewrite Hd, Ht.
  - intros k d1 d2 Hr1 Hr2 Ht.
    rewrite (Token_key c Hd Ht Hr1 Hr2). rewrite Token_switch_rbrack. fields.
    unfold top_is. now rewrite Ht.
  - intros d' Hr Ht.
    rewrite Token_reads by auto using scalar_on_top_Object.
    unfold read. rewrite Hr. fields. now rewrite (top_is_Some _ Ht).
Qed.

(** The naming rule of [outputEnd] in one equation: the closing tag is
    named by the top of [keyNames] when there is one, and by the kind of
    the frame otherwise; the key is popped unless it is also the top of
    [arrayKeys]. *)
Lemma outputEnd_named (c : Converter D) (typ : ttype) :
  top (types c) = Some typ ->
  outputEnd c
  = Some (EndElement match top (keyNames c) with
                     | Some lastKey => lastKey
                     | None => ttypeNames typ
                     end,
          mkConverter (decoder c) (pop (types c)) (data c)
            match shared_name (keyNames c) (arrayKeys c) with
            | Some _ => keyNames c
            | None => pop (keyNames c)
            end
            (arrayKeys c)).
Proof.
  intro Ht. destruct c as [d0 ts dat ks aks]. fields.
  unfold outputEnd. fields. rewrite Ht. fields.
  unfold shared_name.
  destruct (top ks) as [key|] eqn:Ek.
  - destruct (top aks) as [ak|]; [|reflexivity].
    destruct (String.eqb key ak) eqn:E; [|reflexivity].
    apply String.eqb_eq in E. now subst ak.
  - apply top_None in Ek. now subst ks.
Qed.

(** C1, as the code has it.  A key [k] is read with an object on top of
    the frame stack, and the value token that follows it is not the start
    of an array.  In every state of the two key stacks the frame of the
    value is opened by a start tag named [k], and the key is popped at
    once unless the array-binding stack ends in [k]; the text of a scalar
    comes next.  The frame of a scalar is closed on the following pull,
    and the frame of an object value by the pull that reads its
    end-of-object marker: the end tag is named by the key on top of
    [keyNames] at that time, which the close pops unless the
    array-binding stack ends in it, and by the default name of the
    frame's kind when no key is pending.  So a scalar field read with no
    other key pending and popped at its open closes under the default
    name of its kind, and an object field whose end-of-object marker is
    read with no key pending closes under the name [object]. *)
Theorem Token_keyed_value
    (c : Converter D) (k : string) (v : jtoken) (d1 d2 : D) :
  data c = None ->
  top (types c) = Some typObject ->
  decoder_Token (decoder c) = (JString k, None, d1) ->
  decoder_Token d1 = (v, None, d2) ->
  let ks := if bound_to k (arrayKeys c)
            then keyNames c ++ [k] else keyNames c in
  (forall typ text,
      scalar_frame FormatFloat v = Some (typ, text) ->
      let c1 := mkConverter d2 (types c ++ [typ]) (Some text) ks (arrayKeys c) in
      let c2 := mkConverter d2 (types c ++ [typ]) None ks (arrayKeys c) in
      let c3 := mkConverter d2 (types c) None [] (arrayKeys c) in
      Token FormatFloat c = (Some (StartElement k), None, c1) /\
      Token FormatFloat c1 = (Some (CharData text), None, c2) /\
      Token FormatFloat c2 =
      (Some (EndElement match top ks with
                        | Some lastKey => lastKey
                        | None => ttypeNames typ
                        end), None,
       mkConverter d2 (types c) None
         match shared_name ks (arrayKeys c) with
         | Some _ => ks
         | None => pop ks
         end
         (arrayKeys c)) /\
      (keyNames c = [] ->
       bound_to k (arrayKeys c) = false ->
       Token FormatFloat c2 = (Some (EndElement (ttypeNames typ)), None, c3)))
  /\ (v = JDelim lbrace ->
      let c1 := mkConverter d2 (types c ++ [typObject]) None ks (arrayKeys c) in
      Token FormatFloat c = (Some (StartElement k), None, c1) /\
      forall c' d',
        data c' = None ->
        types c' = types c1 ->
        decoder_Token (decoder c') = (JDelim rbrace, None, d') ->
        Token FormatFloat c' =
        (Some (EndElement match top (keyNames c') with
                          | Some lastKey => lastKey
                          | None => ttypeNames typObject
                          end), None,
         mkConverter d' (types c) None
           match shared_name (keyNames c') (arrayKeys c') with
           | Some _ => keyNames c'
           | None => pop (keyNames c')
           end
           (arrayKeys c')) /\
        (keyNames c' = [] ->
         Token FormatFloat c' =
         (Some (EndElement (ttypeNames typObject)), None,
          mkConverter d' (types c) None [] (arrayKeys c')))).
Proof.
  intros Hd Ht Hr1 Hr2 ks.
  assert (Hopen : forall typ text,
             outputStart typ
               (mkConverter d2 (types c) text (keyNames c ++ [k]) (arrayKeys c))
             = (StartElement k,
                mkConverter d2 (types c ++ [typ]) text ks (arrayKeys c))).
  { intros typ text. unfold outputStart, ks. fields. rewrite top_snoc.
    destruct (bound_to k (arrayKeys c)); [reflexivity|].
    unfold set_keyNames. fields. now rewrite pop_snoc. }
  pose proof (Token_key c Hd Ht Hr1 Hr2) as Hfirst.
  split.
  - intros typ text Hv c1 c2 c3.
    assert (Hclose : Token FormatFloat c2 =
                     (Some (EndElement match top ks with
                                       | Some lastKey => lastKey
                                       | None => ttypeNames typ
                                       end), None,
                      mkConverter d2 (types c) None
                        match shared_name ks (arrayKeys c) with
                        | Some _ => ks
                        | None => pop ks
                        end
                        (arrayKeys c))).
    { rewrite Token_closes_scalar;
        [| reflexivity
         | unfold c2; fields; rewrite scalar_on_top_snoc;
           exact (scalar_frame_kind _ Hv)].
      unfold ret_end. rewrite (@outputEnd_named c2 typ) by apply top_snoc.
      unfold c2, ret_token. fields. cbn [fst snd].
      now rewrite pop_snoc. }
    split; [|split; [|split]].
    + rewrite Hfirst. rewrite Token_switch_scalar with (1 := Hv).
      unfold outputType, set_data. fields. now rewrite Hopen.
    + reflexivity.
    + exact Hclose.
    + intros Hk Hb. rewrite Hclose. unfold c3, ks. rewrite Hb, Hk.
      reflexivity.
  - intros -> c1. split.
    + rewrite Hfirst. rewrite Token_switch_lbrace. now rewrite Hopen.
    + intros c' d' Hd' Ht' Hr'.
      assert (Htop : top (types c') = Some typObject)
        by (rewrite Ht'; apply top_snoc).
      assert (Hclose : Token FormatFloat c' =
                       (Some (EndElement match top (keyNames c') with
                                         | Some lastKey => lastKey
                                         | None => ttypeNames typObject
                                         end), None,
                        mkConverter d' (types c) None
                          match shared_name (keyNames c') (arrayKeys c') with
                          | Some _ => keyNames c'
                          | None => pop (keyNames c')
                          end
                          (arrayKeys c'))).
      { rewrite (Token_plain c' Hd' Hr');
          [| now apply scalar_on_top_Object
           | cbn [is_rbrace]; rewrite Z.eqb_refl; apply andb_false_r].
        rewrite Token_switch_rbrace. fields.
        rewrite (top_is_Some _ Htop). cbn [negb].
        unfold ret_end.
        rewrite (@outputEnd_named
                   (mkConverter d' (types c') None (keyNames c') (arrayKeys c'))
                   typObject) by exact Htop.
        unfold ret_token. fields. cbn [fst snd]. rewrite Ht'.
        unfold c1. fields. now rewrite pop_snoc. }
      split; [exact Hclose|].
      intro Hk'. rewrite Hclose, Hk'. reflexivity.
Qed.

(** What opening and closing a frame leave alone. *)
Lemma outputStart_frame (typ : ttype) (c : Converter D) :
  decoder (snd (outputStart typ c)) = decoder c
  /\ types (snd (outputStart typ c)) = types c ++ [typ]
  /\ data (snd (outputStart typ c)) = data c.
Proof.
  unfold outputStart. fields.
  destruct (top (keyNames c)) as [lastKey|]; [|now cbn].
  destruct (bound_to lastKey (arrayKeys c)); now cbn.
Qed.

Lemma outputEnd_frame (c : Converter D) t c' :
  outputEnd c = Some (t, c') ->
  decoder c' = decoder c /\ types c' = pop (types c) /\ data c' = data c.
Proof.
  unfold outputEnd. destruct (top (types c)) as [typ|]; [|discriminate].
  fields. destruct (shared_name (keyNames c) (arrayKeys c)).
  - intro H. injection H as <- <-. now cbn.
  - destruct (top (keyNames c)); intro H; injection H as <- <-; now cbn.
Qed.

(** Closing the frame on top, whatever names it. *)
Lemma ret_end_frame (c : Converter D) typ :
  top (types c) = Some typ ->
  exists t c',
    ret_end c = (Some t, None, c')
    /\ decoder c' = decoder c /\ types c' = pop (types c) /\ data c' = data c.
Proof.
  intro H. destruct (ret_end_emits c H) as (t & c' & Hr & Ho).
  exists t, c'. split; [exact Hr|]. exact (outputEnd_frame _ Ho).
Qed.

(** Opening a frame, whatever names it. *)
Lemma ret_start_frame (typ : ttype) (c : Converter D) :
  exists t c',
    ret_token (outputStart typ c) = (Some t, None, c')
    /\ decoder c' = decoder c /\ types c' = types c ++ [typ]
    /\ data c' = data c.
Proof.
  exists (fst (outputStart typ c)), (snd (outputStart typ c)).
  split; [reflexivity|]. apply outputStart_frame.
Qed.
End PullFacts.

(** A number where a key is expected. *)
Lemma Token_invalid_key_witness :
  Token FormatFloat_integral
        (mkConverter [JNumber "1"; JDelim rbrace] [typObject] None [] [])
  = (None, Some ErrInvalidKey,
     mkConverter [JDelim rbrace] [typObject] None [] []).
Proof.
  apply (@Token_invalid_key FormatFloat_integral (list jtoken) Script
           (mkConverter [JNumber "1"; JDelim rbrace] [typObject] None [] [])
           (JNumber "1") [JDelim rbrace]).
  - reflexivity.
  - reflexivity.
  - reflexivity.
  - reflexivity.
  - intros s H. discriminate H.
Defined.

(** A bare end-of-array marker, read by a fresh converter. *)
Lemma Token_unmatched_close_witness :
  Token FormatFloat_integral (Tokens [JDelim rbrack])
  = (None, Some ErrInvalidToken, Tokens []).
Proof.
  apply (proj1 (proj2 (@Token_unmatched_close FormatFloat_integral
                         (list jtoken) Script (Tokens [JDelim rbrack])
                         eq_refl)) []).
  - reflexivity.
  - reflexivity.
Defined.

(** C6 as stated fails on the token stream [{ ]]: after the object is
    opened its frame, not an array, is on top; the pull that reads the
    end-of-array marker fails with [ErrInvalidKey], not with
    [ErrInvalidToken]. *)
Lemma Token_close_in_key_position :
  let c := snd (Token FormatFloat_integral
                  (Tokens [JDelim lbrace; JDelim rbrack])) in
  data c = None /\
  top (types c) = Some typObject /\
  top (types c) <> Some typArray /\
  decoder_Token (decoder c) = (JDelim rbrack, None, []) /\
  fst (Token FormatFloat_integral c) = (None, Some ErrInvalidKey) /\
  fst (Token FormatFloat_integral c) <> (None, Some ErrInvalidToken).
Proof. cbv. repeat split; discriminate. Qed.

(** The field of [{"a":1}], read after the object has been opened. *)
Lemma Token_keyed_value_witness :
  let c := mkConverter [JString "a"; JFloat (float64_of_Z 1); JDelim rbrace]
             [typObject] None [] [] in
  let c1 := mkConverter [JDelim rbrace] [typObject; typNumber] (Some "1")
              [] [] in
  let c2 := mkConverter [JDelim rbrace] [typObject; typNumber] None [] [] in
  let c3 := mkConverter [JDelim rbrace] [typObject] None [] [] in
  Token FormatFloat_integral c = (Some (StartElement "a"), None, c1) /\
  Token FormatFloat_integral c1 = (Some (CharData "1"), None, c2) /\
  Token FormatFloat_integral c2 = (Some (EndElement "number"), None, c3).
Proof.
  pose proof (proj1
                (@Token_keyed_value FormatFloat_integral (list jtoken) Script
                   (mkConverter
                      [JString "a"; JFloat (float64_of_Z 1); JDelim rbrace]
                      [typObject] None [] [])
                   "a" (JFloat (float64_of_Z 1))
                   [JFloat (float64_of_Z 1); JDelim rbrace] [JDelim rbrace]
                   eq_refl eq_refl eq_refl eq_refl)
                typNumber "1" eq_refl) as H.
  split; [exact (proj1 H)|]. split; [exact (proj1 (proj2 H))|].
  exact (proj2 (proj2 (proj2 H)) eq_refl eq_refl).
Defined.

(** C1 as stated fails inside a key-bound array.  In
    [{"a":[{"b":1}]}] the field [b] of the inner object has a scalar
    value; three pulls in, its key is about to be read with an object on
    top.  Its frame is opened as [<b>] and closed as [</a>], the name of
    the enclosing array's key, not [</number>]. *)
Lemma keyed_scalar_closed_by_array_key :
  let doc := VObject [("a", VArray [VObject [("b", VNumber "1")]])] in
  let c := after FormatFloat_integral 3 (Tokens (tokens_of doc)) in
  data c = None /\
  top (types c) = Some typObject /\
  decoder c =
    [JString "b"; JNumber "1"; JDelim rbrace; JDelim rbrack; JDelim rbrace] /\
  fst (Token FormatFloat_integral c) = (Some (StartElement "b"), None) /\
  fst (Token FormatFloat_integral (after FormatFloat_integral 1 c))
    = (Some (CharData "1"), None) /\
  fst (Token FormatFloat_integral (after FormatFloat_integral 2 c))
    = (Some (EndElement "a"), None) /\
  "a" <> ttypeNames typNumber.
Proof. cbv. repeat split; discriminate. Qed.

(** Nor do the two names always differ: in [{"number":1}] the key is the
    default name of the value's kind. *)
Lemma keyed_scalar_same_names :
  let doc := VObject [("number", VNumber "1")] in
  let c := after FormatFloat_integral 1 (Tokens (tokens_of doc)) in
  fst (Token FormatFloat_integral c) = (Some (StartElement "number"), None) /\
  fst (Token FormatFloat_integral (after FormatFloat_integral 2 c))
    = (Some (EndElement "number"), None).
Proof. cbv. split; reflexivity. Qed.

(** ** The driver *)

Section DriverFacts.
Variable FormatFloat : float64 -> string.
Context {D : Type} {JD : JSONDecoder D} {X : Type} {XE : XMLEncoder X}.

(** The three ways out of a turn of the loop. *)
Lemma loop_body_pull_error (c : Converter D) (x : X) tk e c' :
  Token FormatFloat c = (tk, Some e, c') -> e <> EOF ->
  loop_body FormatFloat c x = inr (Return e, x).
Proof.
  intros H Hne. unfold loop_body. rewrite H.
  destruct e; try reflexivity. now contradiction Hne.
Qed.

Lemma loop_body_EOF (c : Converter D) (x : X) tk c' :
  Token FormatFloat c = (tk, Some EOF, c') ->
  loop_body FormatFloat c x = inr (Break, x).
Proof. intros H. unfold loop_body. now rewrite H. Qed.

Lemma loop_body_sink_error (c : Converter D) (x : X) t c' e x' :
  Token FormatFloat c = (Some t, None, c') ->
  EncodeToken t x = (Some e, x') ->
  loop_body FormatFloat c x = inr (Return e, x').
Proof. intros H Hx. unfold loop_body. now rewrite H, Hx. Qed.

(** The one way round. *)
Lemma loop_body_continue (c : Converter D) (x : X) c' x' :
  loop_body FormatFloat c x = inl (c', x') ->
  exists t, Token FormatFloat c = (Some t, None, c')
            /\ EncodeToken t x = (None, x').
Proof.
  unfold loop_body. intro H.
  pose proof (Token_never_nil_nil FormatFloat c) as Hnn.
  destruct (Token FormatFloat c) as [[tk err] c1].
  destruct err as [e|]; [destruct (is_EOF e); discriminate|].
  destruct tk as [t|]; [|now contradiction Hnn].
  exists t. destruct (EncodeToken t x) as [[e|] x1]; [discriminate|].
  now injection H as -> ->.
Qed.

(** A loop that leaves at turn [i] does so for any bound above [i]. *)
Lemma Convert_loop_exit (i : nat) :
  forall (c : Converter D) (x : X) ci xi r,
    turn FormatFloat i c x = Some (ci, xi) ->
    loop_body FormatFloat ci xi = inr r ->
    forall fuel, i < fuel -> Convert_loop FormatFloat fuel c x = Some r.
Proof.
  induction i as [|i IH]; intros c x ci xi r Ht Hb fuel Hf;
    (destruct fuel as [|fuel]; [lia|]); cbn [turn] in Ht; cbn [Convert_loop].
  - injection Ht as -> ->. now rewrite Hb.
  - destruct (loop_body FormatFloat c x) as [[c' x']|]; [|discriminate].
    apply IH with (1 := Ht) (2 := Hb). lia.
Qed.

(** More fuel does not change a result. *)
Lemma Convert_loop_more (fuel : nat) :
  forall (c : Converter D) (x : X) r,
    Convert_loop FormatFloat fuel c x = Some r ->
    forall fuel', fuel <= fuel' -> Convert_loop FormatFloat fuel' c x = Some r.
Proof.
  induction fuel as [|fuel IH]; intros c x r H fuel' Hle; [discriminate|].
  destruct fuel' as [|fuel']; [lia|]. cbn [Convert_loop] in *.
  destruct (loop_body FormatFloat c x) as [[c' x']|]; [|exact H].
  apply IH with (1 := H). lia.
Qed.

Lemma Convert_more (fuel fuel' : nat) (j : D) (x : X) r :
  Convert FormatFloat fuel j x = Some r ->
  fuel <= fuel' ->
  Convert FormatFloat fuel' j x = Some r.
Proof.
  unfold Convert. fold (Tokens j). intros H Hle.
  destruct (EncodeToken (StartElement root) x) as [[e|] x1]; [exact H|].
  destruct (Convert_loop FormatFloat fuel (Tokens j) x1) as [r1|] eqn:El;
    [|discriminate].
  apply Convert_loop_more with (fuel' := fuel') in El; [|exact Hle].
  now rewrite El.
Qed.

(** What [Convert] returns once the loop has been left. *)
Lemma Convert_after_loop (fuel : nat) (j : D) (x x1 : X) r :
  EncodeToken (StartElement root) x = (None, x1) ->
  Convert_loop FormatFloat fuel (Tokens j) x1 = Some r ->
  Convert FormatFloat fuel j x =
  match r with
  | (Return e, x2) => Some (Some e, x2)
  | (Break, x2) => Some (EncodeToken (EndElement root) x2)
  end.
Proof.
  intros Hs Hl. unfold Convert. fold (Tokens j). rewrite Hs, Hl.
  destruct r as [[|e] x2]; [|reflexivity].
  destruct (EncodeToken (EndElement root) x2) as [[e|] x3]; reflexivity.
Qed.

(** C10, as the code has it.  The source delivers a key and then
    [io.EOF] for its value.  The pull returns [io.EOF] with the key left
    on [keyNames]; [Convert] leaves its loop, hands the end tag [root] to
    the sink and returns what the sink answers to it: success when the tag
    is accepted, the sink's error when it is not.  The truncation itself
    is never reported. *)
Theorem Convert_key_then_EOF
    (j : D) (x x1 : X) (i : nat) (ci : Converter D) (xi : X)
    (k : string) (token : jtoken) (d1 d2 : D) :
  EncodeToken (StartElement root) x = (None, x1) ->
  turn FormatFloat i (Tokens j) x1 = Some (ci, xi) ->
  data ci = None ->
  top (types ci) = Some typObject ->
  decoder_Token (decoder ci) = (JString k, None, d1) ->
  decoder_Token d1 = (token, Some EOF, d2) ->
  Token FormatFloat ci =
  (None, Some EOF,
   mkConverter d2 (types ci) None (keyNames ci ++ [k]) (arrayKeys ci))
  /\ (forall fuel, i < fuel ->
      Convert FormatFloat fuel j x = Some (EncodeToken (EndElement root) xi))
  /\ (forall x', EncodeToken (EndElement root) xi = (None, x') ->
      forall fuel, i < fuel -> Convert FormatFloat fuel j x = Some (None, x')).
Proof.
  intros Hs Ht Hd Hty Hr1 Hr2.
  assert (Hpull : Token FormatFloat ci =
                  (None, Some EOF,
                   mkConverter d2 (types ci) None (keyNames ci ++ [k])
                     (arrayKeys ci))).
  { rewrite Token_reads by auto using scalar_on_top_Object.
    unfold read. rewrite Hr1. fields.
    rewrite (top_is_Some _ Hty). cbn [is_rbrace negb andb].
    rewrite Hr2. unfold ret_error, set_decoder, set_keyNames. fields.
    now rewrite Hd. }
  assert (Hconv : forall fuel, i < fuel ->
             Convert FormatFloat fuel j x
             = Some (EncodeToken (EndElement root) xi)).
  { intros fuel Hf.
    rewrite Convert_after_loop with (x1 := x1) (r := (Break, xi));
      [reflexivity | exact Hs |].
    eapply Convert_loop_exit; [exact Ht | | exact Hf].
    eapply loop_body_EOF. exact Hpull. }
  split; [exact Hpull|]. split; [exact Hconv|].
  intros x' Hx fuel Hf. now rewrite Hconv, Hx.
Qed.
End DriverFacts.

Section DriverLog.
Variable FormatFloat : float64 -> string.
Context {D : Type} {JD : JSONDecoder D} {X : Type} {XE : XMLEncoder X}.

(** A logging sink adds one entry per call, whatever the answer. *)
Lemma Logged_EncodeToken (t : xtoken) (x : Logged X) err x' :
  EncodeToken t x = (err, x') ->
  EncodeToken t (inner x) = (err, inner x')
  /\ calls x' = calls x ++ [(t, err)].
Proof.
  unfold EncodeToken at 1, Logged_encoder.
  destruct (EncodeToken t (inner x)) as [err1 x1].
  intro H. injection H as <- <-. now split.
Qed.

Lemma Logged_call (t : xtoken) (x : Logged X) err x1 :
  EncodeToken t (inner x) = (err, x1) ->
  EncodeToken t x = (err, mkLogged x1 (calls x ++ [(t, err)])).
Proof.
  intro H. unfold EncodeToken at 1, Logged_encoder. now rewrite H.
Qed.

Lemma Logged_first_call (t : xtoken) (x : X) err x1 :
  EncodeToken t x = (err, x1) ->
  EncodeToken t (mkLogged x []) = (err, mkLogged x1 [(t, err)]).
Proof. intro H. now apply Logged_call. Qed.

Lemma loop_body_calls (c : Converter D) (x : Logged X) :
  match loop_body FormatFloat c x with
  | inl (_, x') | inr (_, x') => exists more, calls x' = calls x ++ more
  end.
Proof.
  unfold loop_body. destruct (Token FormatFloat c) as [[tk err] c1].
  destruct err as [e|].
  - destruct (is_EOF e); exists []; now rewrite app_nil_r.
  - destruct tk as [t|]; [|exists []; now rewrite app_nil_r].
    destruct (EncodeToken t x) as [err x'] eqn:E.
    apply Logged_EncodeToken in E. destruct E as [_ E].
    destruct err; eauto.
Qed.

Lemma Convert_loop_calls (fuel : nat) :
  forall (c : Converter D) (x : Logged X) r x',
    Convert_loop FormatFloat fuel c x = Some (r, x') ->
    exists more, calls x' = calls x ++ more.
Proof.
  induction fuel as [|fuel IH]; intros c x r x' H; [discriminate|].
  cbn [Convert_loop] in H. pose proof (loop_body_calls c x) as Hb.
  destruct (loop_body FormatFloat c x) as [[c1 x1]|[r1 x1]].
  - destruct Hb as [m1 E1]. apply IH in H. destruct H as [m2 E2].
    exists (m1 ++ m2). now rewrite E2, E1, app_assoc.
  - now injection H as <- <-.
Qed.

(** At the start of turn [i] the log holds, after what it held before the
    loop, the tokens pulled so far, each accepted. *)
Lemma turn_pulls (i : nat) :
  forall (c : Converter D) (x : Logged X) ci xi,
    turn FormatFloat i c x = Some (ci, xi) ->
    exists toks,
      pulls FormatFloat c toks ci
      /\ calls xi = calls x ++ map (fun t => (t, None)) toks.
Proof.
  induction i as [|i IH]; intros c x ci xi H; cbn [turn] in H.
  - injection H as <- <-. exists []. split; [constructor|].
    now rewrite app_nil_r.
  - destruct (loop_body FormatFloat c x) as [[c1 x1]|] eqn:Eb; [|discriminate].
    apply loop_body_continue in Eb. destruct Eb as (t & Ht & Hx).
    apply Logged_EncodeToken in Hx. destruct Hx as [_ Hx].
    apply IH in H. destruct H as (toks & Hp & Hc).
    exists (t :: toks). split; [econstructor; eassumption|].
    rewrite Hc, Hx, <- app_assoc. reflexivity.
Qed.

(** C7, as the code has it, seen through the log of a sink.  The first
    call made to the sink is the start tag [root]; if it is refused its
    error is returned.  Take a run that reaches turn [i] of the loop: the
    log then holds that tag and the tokens pulled so far.  If the pull of
    that turn fails with an error other than [io.EOF], or the sink refuses
    the token it yields, [Convert] returns that error and makes no further
    call.  If the pull reports [io.EOF], [Convert] makes one more call,
    the end tag [root], and returns the sink's answer to it: success when
    it is accepted, the sink's error when it is not. *)
Theorem Convert_contract (j : D) (x : X) :
  (forall fuel r x',
      Convert FormatFloat fuel j (mkLogged x []) = Some (r, x') ->
      exists r0 rest, calls x' = (StartElement root, r0) :: rest)
  /\ (forall e x1,
      EncodeToken (StartElement root) x = (Some e, x1) ->
      forall fuel,
        Convert FormatFloat fuel j (mkLogged x [])
        = Some (Some e, mkLogged x1 [(StartElement root, Some e)]))
  /\ (forall x1 i ci xi,
      EncodeToken (StartElement root) x = (None, x1) ->
      turn FormatFloat i (Tokens j) (mkLogged x1 [(StartElement root, None)])
      = Some (ci, xi) ->
      (exists toks,
          pulls FormatFloat (Tokens j) toks ci
          /\ calls xi
             = (StartElement root, None) :: map (fun t => (t, None)) toks)
      /\ (forall tk e c',
          Token FormatFloat ci = (tk, Some e, c') -> e <> EOF ->
          forall fuel, i < fuel ->
            Convert FormatFloat fuel j (mkLogged x []) = Some (Some e, xi))
      /\ (forall t c' e x',
          Token FormatFloat ci = (Some t, None, c') ->
          EncodeToken t (inner xi) = (Some e, x') ->
          forall fuel, i < fuel ->
            Convert FormatFloat fuel j (mkLogged x [])
            = Some (Some e, mkLogged x' (calls xi ++ [(t, Some e)])))
      /\ (forall tk c' r x',
          Token FormatFloat ci = (tk, Some EOF, c') ->
          EncodeToken (EndElement root) (inner xi) = (r, x') ->
          forall fuel, i < fuel ->
            Convert FormatFloat fuel j (mkLogged x [])
            = Some (r, mkLogged x' (calls xi ++ [(EndElement root, r)])))).
Proof.
  split; [|split].
  - intros fuel r x' H. unfold Convert in H. fold (Tokens j) in H.
    destruct (EncodeToken (StartElement root) x) as [err x1] eqn:Es.
    apply Logged_first_call in Es.
    rewrite Es in H. destruct err as [e|].
    + injection H as <- <-. cbn [calls]. eauto.
    + destruct (Convert_loop FormatFloat fuel (Tokens j) _)
        as [[ex x2]|] eqn:El; [|discriminate].
      apply Convert_loop_calls in El. destruct El as [more El].
      cbn [calls app] in El. destruct ex as [|e].
      * destruct (EncodeToken (EndElement root) x2) as [err x3] eqn:Ee.
        apply Logged_EncodeToken in Ee. destruct Ee as [_ Ee].
        rewrite El in Ee. cbn [app] in Ee.
        destruct err; injection H as <- <-; eauto.
      * injection H as <- <-. eauto.
  - intros e x1 Hs fuel.
    apply Logged_first_call in Hs.
    unfold Convert. fold (Tokens j). now rewrite Hs.
  - intros x1 i ci xi Hs Ht.
    apply Logged_first_call in Hs.
    split; [|split; [|split]].
    + apply turn_pulls in Ht. destruct Ht as (toks & Hp & Hc). eauto.
    + intros tk e c' Hp Hne fuel Hf.
      rewrite Convert_after_loop with (1 := Hs) (r := (Return e, xi));
        [reflexivity|].
      eapply Convert_loop_exit; [exact Ht | | exact Hf].
      eapply loop_body_pull_error; eassumption.
    + intros t c' e x' Hp Hx fuel Hf.
      rewrite Convert_after_loop with (1 := Hs)
        (r := (Return e, mkLogged x' (calls xi ++ [(t, Some e)])));
        [reflexivity|].
      eapply Convert_loop_exit; [exact Ht | | exact Hf].
      eapply loop_body_sink_error; [exact Hp|].
      now apply Logged_call.
    + intros tk c' r x' Hp Hx fuel Hf.
      rewrite Convert_after_loop with (1 := Hs) (r := (Break, xi)).
      * apply Logged_call in Hx. now rewrite Hx.
      * eapply Convert_loop_exit; [exact Ht | | exact Hf].
        eapply loop_body_EOF. exact Hp.
Qed.
End DriverLog.


(** The stream [{ "a"] and nothing more. *)
Lemma Convert_key_then_EOF_witness :
  Token FormatFloat_integral
    (mkConverter [JString "a"] [typObject] None [] [])
  = (None, Some EOF, mkConverter [] [typObject] None ["a"] [])
  /\ Convert FormatFloat_integral 2 [JDelim lbrace; JString "a"]
       (mkRecorder [])
     = Some (None, mkRecorder [StartElement "root"; StartElement "object";
                               EndElement "root"]).
Proof.
  pose proof (@Convert_key_then_EOF FormatFloat_integral (list jtoken) Script
                Recorder Recorder_encoder
                [JDelim lbrace; JString "a"] (mkRecorder [])
                (mkRecorder [StartElement "root"]) 1
                (mkConverter [JString "a"] [typObject] None [] [])
                (mkRecorder [StartElement "root"; StartElement "object"])
                "a" JNil [] []
                eq_refl eq_refl eq_refl eq_refl eq_refl eq_refl) as H.
  split.
  - exact (proj1 H).
  - exact (proj2 (proj2 H) _ eq_refl 2 (le_n 2)).
Defined.

(** A bare end-of-array marker makes the first pull fail; the error is
    returned and the log holds the start tag only. *)
Lemma Convert_contract_witness :
  Convert FormatFloat_integral 1 [JDelim rbrack] (mkLogged (mkRecorder []) [])
  = Some (Some ErrInvalidToken,
          mkLogged (mkRecorder [StartElement "root"])
                   [(StartElement "root", None)]).
Proof.
  refine (proj1 (proj2
            (proj2 (proj2 (@Convert_contract FormatFloat_integral
                             (list jtoken) Script Recorder Recorder_encoder
                             [JDelim rbrack] (mkRecorder [])))
               (mkRecorder [StartElement "root"]) 0
               (Tokens [JDelim rbrack])
               (mkLogged (mkRecorder [StartElement "root"])
                         [(StartElement "root", None)])
               eq_refl eq_refl))
            None ErrInvalidToken (Tokens []) eq_refl _ 1 (le_n 1)).
  intro H. discriminate H.
Defined.

(** C7 as stated fails when the sink refuses the closing tag.  On the
    tokens of [{}] the converter hands out two tokens and then signals
    the end of the stream; a sink with room for three tokens accepts the
    start tag [root] and those two, and refuses the end tag [root]:
    [Convert] returns the sink's error, not success. *)
Lemma Convert_closing_tag_refused :
  let j := tokens_of (VObject []) in
  drain FormatFloat_integral 3 (Tokens j)
  = Some ([StartElement "object"; EndElement "object"], EOF, Tokens [])
  /\ Convert FormatFloat_integral 3 j (mkLimited 3 [])
     = Some (Some short_write,
             mkLimited 0 [StartElement "root"; StartElement "object";
                          EndElement "object"])
  /\ Convert FormatFloat_integral 3 j (mkLimited 3 [])
     <> Some (None,
              mkLimited 0 [StartElement "root"; StartElement "object";
                           EndElement "object"; EndElement "root"]).
Proof. cbv. repeat split; discriminate. Qed.

(** C10 as stated fails when the sink refuses the closing tag.  On the
    stream [{ "a"] the second pull signals [io.EOF] with the key left
    pushed; a sink with room for two tokens has accepted the start tags
    [root] and [object] and refuses the end tag [root]: [Convert] returns
    the sink's error, not success. *)
Lemma Convert_key_then_EOF_refused :
  Token FormatFloat_integral
    (mkConverter [JString "a"] [typObject] None [] [])
  = (None, Some EOF, mkConverter [] [typObject] None ["a"] [])
  /\ Convert FormatFloat_integral 2 [JDelim lbrace; JString "a"]
       (mkLimited 2 [])
     = Some (Some short_write,
             mkLimited 0 [StartElement "root"; StartElement "object"])
  /\ (forall x, Convert FormatFloat_integral 2 [JDelim lbrace; JString "a"]
                  (mkLimited 2 [])
                <> Some (None, x)).
Proof.
  split; [reflexivity|]. split; [reflexivity|].
  intros x H. cbv in H. discriminate H.
Qed.

(** ** Runs over well-formed token streams *)

Lemma tokens_of_first (v : jvalue) :
  exists t ts, tokens_of v = t :: ts.
Proof. destruct v; cbn; eauto. Qed.

Section ScriptRuns.
Variable FormatFloat : float64 -> string.

Lemma pulls_app (c c1 c2 : Converter (list jtoken)) out1 out2 :
  pulls FormatFloat c out1 c1 -> pulls FormatFloat c1 out2 c2 ->
  pulls FormatFloat c (out1 ++ out2) c2.
Proof.
  induction 1 as [|c t c' out c1 Ht _ IH]; intro H2; [exact H2|].
  cbn. econstructor; [exact Ht|]. now apply IH.
Qed.

(** The second and third pull of a scalar: its text, then its end tag. *)
Lemma scalar_pulls (c : Converter (list jtoken)) typ text :
  data c = Some text ->
  top (types c) = Some typ ->
  match typ with typObject | typArray => false | _ => true end = true ->
  exists out c',
    pulls FormatFloat c out c'
    /\ decoder c' = decoder c /\ types c' = pop (types c) /\ data c' = None.
Proof.
  intros Hd Ht Hk.
  assert (H1 : Token FormatFloat c
               = (Some (CharData text), None, set_data c None))
    by (unfold Token; now rewrite Hd).
  assert (Hs : scalar_on_top (types (set_data c None)) = true)
    by (unfold scalar_on_top; fields; rewrite Ht; now destruct typ).
  destruct (ret_end_frame (set_data c None) Ht) as (t & c' & Hr & Hdec & Hty & Hda).
  exists [CharData text; t], c'. split; [|now fields].
  econstructor; [exact H1|]. econstructor; [|constructor].
  now rewrite Token_closes_scalar.
Qed.

Lemma scalar_completes (v : jvalue) tok :
  tokens_of v = [tok] ->
  (exists typ text, scalar_frame FormatFloat tok = Some (typ, text)) ->
  completes FormatFloat v.
Proof.
  intros Hv (typ & text & Hs) cm t ts rest Ht Hd Hdec.
  rewrite Hv in Ht. injection Ht as <- <-. cbn [app] in Hdec.
  rewrite Token_switch_scalar with (1 := Hs). unfold outputType.
  destruct (ret_start_frame typ (set_data cm (Some text)))
    as (tk & c1 & Hr & Hdec1 & Hty1 & Hda1). fields.
  destruct (@scalar_pulls c1 typ text) as (out & c' & Hp & Hdec' & Hty' & Hda');
    [assumption | rewrite Hty1; apply top_snoc
     | eapply scalar_frame_kind; exact Hs |].
  exists out, c'. split; [eauto|].
  rewrite Hty', Hty1, pop_snoc, Hdec', Hdec1. auto.
Qed.

(** The members of an object, read with its frame on top. *)
Lemma members_complete (ms : list (string * jvalue)) :
  Forall (fun kv => completes FormatFloat (snd kv)) ms ->
  forall (c : Converter (list jtoken)) rest,
    data c = None ->
    top (types c) = Some typObject ->
    decoder c = members_tokens ms ++ rest ->
    exists out c',
      pulls FormatFloat c out c'
      /\ types c' = types c /\ data c' = None /\ decoder c' = rest.
Proof.
  induction 1 as [|[k v] ms Hv _ IH]; intros c rest Hd Ht Hdec.
  - exists [], c. split; [constructor|]. auto.
  - cbn [members_tokens flat_map fst snd app] in Hdec.
    rewrite <- app_assoc in Hdec. fold (members_tokens ms) in Hdec.
    destruct (tokens_of_first v) as (t & ts & Hv0).
    rewrite Hv0 in Hdec. cbn [app] in Hdec.
    assert (Hfirst := @Token_key FormatFloat _ Script c k t
                        (t :: ts ++ members_tokens ms ++ rest)
                        (ts ++ members_tokens ms ++ rest) Hd Ht).
    rewrite Hdec in Hfirst. specialize (Hfirst eq_refl eq_refl).
    destruct (Hv (mkConverter (ts ++ members_tokens ms ++ rest) (types c)
                    None (keyNames c ++ [k]) (arrayKeys c))
                t ts (members_tokens ms ++ rest) Hv0 eq_refl eq_refl)
      as (out1 & c1 & (tk & c0 & Hsw & Hp1) & Hty1 & Hda1 & Hdec1).
    fields.
    destruct (IH c1 rest Hda1) as (out2 & c2 & Hp2 & Hty2 & Hda2 & Hdec2);
      [now rewrite Hty1 | exact Hdec1 |].
    exists (tk :: out1 ++ out2), c2. split.
    + econstructor; [rewrite Hfirst; exact Hsw|]. now apply pulls_app with c1.
    + rewrite Hty2, Hty1. auto.
Qed.

(** The elements of an array, read with its frame on top. *)
Lemma elems_complete (vs : list jvalue) :
  Forall (completes FormatFloat) vs ->
  forall (c : Converter (list jtoken)) rest,
    data c = None ->
    top (types c) = Some typArray ->
    decoder c = elems_tokens vs ++ rest ->
    exists out c',
      pulls FormatFloat c out c'
      /\ types c' = types c /\ data c' = None /\ decoder c' = rest.
Proof.
  induction 1 as [|v vs Hv _ IH]; intros c rest Hd Ht Hdec.
  - exists [], c. split; [constructor|]. auto.
  - cbn [elems_tokens flat_map] in Hdec.
    rewrite <- app_assoc in Hdec. fold (elems_tokens vs) in Hdec.
    destruct (tokens_of_first v) as (t & ts & Hv0).
    rewrite Hv0 in Hdec. cbn [app] in Hdec.
    assert (Hfirst := @Token_plain FormatFloat _ Script c t
                        (ts ++ elems_tokens vs ++ rest) Hd).
    rewrite Hdec in Hfirst. specialize (Hfirst eq_refl).
    unfold scalar_on_top, top_is in Hfirst. rewrite Ht in Hfirst.
    specialize (Hfirst eq_refl eq_refl).
    destruct (Hv (mkConverter (ts ++ elems_tokens vs ++ rest) (types c)
                    None (keyNames c) (arrayKeys c))
                t ts (elems_tokens vs ++ rest) Hv0 eq_refl eq_refl)
      as (out1 & c1 & (tk & c0 & Hsw & Hp1) & Hty1 & Hda1 & Hdec1).
    fields.
    destruct (IH c1 rest Hda1) as (out2 & c2 & Hp2 & Hty2 & Hda2 & Hdec2);
      [now rewrite Hty1 | exact Hdec1 |].
    exists (tk :: out1 ++ out2), c2. split.
    + econstructor; [rewrite Hfirst; exact Hsw|]. now apply pulls_app with c1.
    + rewrite Hty2, Hty1. auto.
Qed.

(** The end-of-object marker, read with the object's frame on top. *)
Lemma close_object (c : Converter (list jtoken)) rest :
  data c = None ->
  top (types c) = Some typObject ->
  decoder c = JDelim rbrace :: rest ->
  exists t c',
    Token FormatFloat c = (Some t, None, c')
    /\ types c' = pop (types c) /\ data c' = None /\ decoder c' = rest.
Proof.
  intros Hd Ht Hdec.
  assert (H := @Token_plain FormatFloat _ Script c (JDelim rbrace) rest Hd).
  rewrite Hdec in H. specialize (H eq_refl (scalar_on_top_Object _ Ht)).
  rewrite H by apply andb_false_r.
  rewrite Token_switch_rbrace. fields. rewrite (top_is_Some _ Ht). cbn [negb].
  match goal with
  | |- context [ret_end ?c0] =>
      destruct (@ret_end_frame _ c0 typObject Ht)
        as (t & c' & Hr & Hdec' & Hty' & Hda')
  end.
  exists t, c'. now fields.
Qed.

(** The end-of-array marker, read with the array's frame on top. *)
Lemma close_array (c : Converter (list jtoken)) rest :
  data c = None ->
  top (types c) = Some typArray ->
  decoder c = JDelim rbrack :: rest ->
  exists t c',
    Token FormatFloat c = (Some t, None, c')
    /\ types c' = pop (types c) /\ data c' = None /\ decoder c' = rest.
Proof.
  intros Hd Ht Hdec.
  assert (H := @Token_plain FormatFloat _ Script c (JDelim rbrack) rest Hd).
  rewrite Hdec in H. unfold scalar_on_top, top_is in H. rewrite Ht in H.
  rewrite (H eq_refl eq_refl eq_refl).
  rewrite Token_switch_rbrack. fields. rewrite (top_is_Some _ Ht). cbn [negb].
  match goal with
  | |- context [ret_end ?c0] =>
      assert (Ht0 : top (types c0) = Some typArray)
        by (destruct (arrayKeys c); exact Ht);
      destruct (ret_end_frame c0 Ht0) as (t & c' & Hr & Hdec' & Hty' & Hda');
      assert (Hf : decoder c0 = rest /\ types c0 = types c /\ data c0 = None)
        by (destruct (arrayKeys c); auto)
  end.
  destruct Hf as (Hf1 & Hf2 & Hf3).
  exists t, c'. split; [exact Hr|].
  rewrite Hty', Hda', Hdec', Hf1, Hf2, Hf3. auto.
Qed.

(** Every document is completed. *)
Lemma all_complete (v : jvalue) : completes FormatFloat v.
Proof.
  induction v as [ms IH|vs IH|b|f|s|s|] using jvalue_induction.
  - intros cm t ts rest Ht Hd Hdec. cbn [tokens_of] in Ht.
    fold (members_tokens ms) in Ht. injection Ht as <- <-.
    rewrite <- app_assoc in Hdec. cbn [app] in Hdec.
    rewrite Token_switch_lbrace.
    destruct (ret_start_frame typObject cm)
      as (tk & c1 & Hr & Hdec1 & Hty1 & Hda1).
    destruct (members_complete IH c1 (JDelim rbrace :: rest))
      as (out & c2 & Hp & Hty2 & Hda2 & Hdec2);
      [congruence | rewrite Hty1; apply top_snoc | congruence |].
    destruct (@close_object c2 rest)
      as (te & c3 & He & Hty3 & Hda3 & Hdec3);
      [assumption | rewrite Hty2, Hty1; apply top_snoc | assumption |].
    exists (out ++ [te]), c3. split.
    + exists tk, c1. split; [exact Hr|].
      apply pulls_app with c2; [exact Hp|].
      econstructor; [exact He | constructor].
    + rewrite Hty3, Hty2, Hty1, pop_snoc. auto.
  - intros cm t ts rest Ht Hd Hdec. cbn [tokens_of] in Ht.
    fold (elems_tokens vs) in Ht. injection Ht as <- <-.
    rewrite <- app_assoc in Hdec. cbn [app] in Hdec.
    rewrite Token_switch_lbrack.
    match goal with
    | |- context [outputStart typArray ?c0] =>
        destruct (ret_start_frame typArray c0)
          as (tk & c1 & Hr & Hdec1 & Hty1 & Hda1);
        assert (Hf : decoder c0 = decoder cm /\ types c0 = types cm
                     /\ data c0 = data cm)
          by (destruct (top (keyNames cm)); auto)
    end.
    destruct Hf as (Hf1 & Hf2 & Hf3).
    destruct (elems_complete IH c1 (JDelim rbrack :: rest))
      as (out & c2 & Hp & Hty2 & Hda2 & Hdec2);
      [congruence | rewrite Hty1; apply top_snoc | congruence |].
    destruct (@close_array c2 rest)
      as (te & c3 & He & Hty3 & Hda3 & Hdec3);
      [assumption | rewrite Hty2, Hty1; apply top_snoc | assumption |].
    exists (out ++ [te]), c3. split.
    + exists tk, c1. split; [exact Hr|].
      apply pulls_app with c2; [exact Hp|].
      econstructor; [exact He | constructor].
    + rewrite Hty3, Hty2, Hty1, pop_snoc. auto.
  - apply scalar_completes with (JBool b); cbn; eauto.
  - apply scalar_completes with (JFloat f); cbn; eauto.
  - apply scalar_completes with (JNumber s); cbn; eauto.
  - apply scalar_completes with (JString s); cbn; eauto.
  - apply scalar_completes with JNil; cbn; eauto.
Qed.

(** Pulls without error, then the first error: what [drain] computes. *)
Lemma drain_pulls (c c' : Converter (list jtoken)) out :
  pulls FormatFloat c out c' ->
  forall tk e c'',
    Token FormatFloat c' = (tk, Some e, c'') ->
    exists fuel, drain FormatFloat fuel c = Some (out, e, c'').
Proof.
  induction 1 as [c|c t c1 out c2 Ht _ IH]; intros tk e c'' He.
  - exists 1. cbn [drain]. rewrite He. now destruct tk.
  - destruct (IH _ _ _ He) as [fuel Hf]. exists (S fuel).
    cbn [drain]. now rewrite Ht, Hf.
Qed.

(** The whole document: pulls that leave nothing open and nothing to
    read. *)
Lemma document_pulls (v : jvalue) :
  exists out c',
    pulls FormatFloat (Tokens (tokens_of v)) out c'
    /\ c' = mkConverter [] [] None (keyNames c') (arrayKeys c').
Proof.
  destruct (tokens_of_first v) as (t & ts & Hv).
  destruct (@all_complete v (mkConverter ts [] None [] []) t ts [] Hv eq_refl)
    as (out & c' & (tk & c1 & Hsw & Hp) & Hty & Hda & Hdec);
    [cbn; now rewrite app_nil_r|].
  exists (tk :: out), c'. split.
  - rewrite Hv. econstructor; [|exact Hp]. rewrite <- Hsw. reflexivity.
  - destruct c'. fields. now subst.
Qed.

(** C8. For the token stream of any JSON document, the frame stack of a
    fresh converter is empty; the pulls succeed one after another until
    the stream is used up, the next pull signals [io.EOF], and the frame
    stack is empty again. *)
Theorem frame_stack_balanced (v : jvalue) :
  types (Tokens (tokens_of v)) = []
  /\ exists fuel out c',
      drain FormatFloat fuel (Tokens (tokens_of v)) = Some (out, EOF, c')
      /\ types c' = [] /\ decoder c' = [].
Proof.
  split; [reflexivity|].
  destruct (document_pulls v) as (out & c' & Hp & Hc).
  assert (He : Token FormatFloat c' = (None, Some EOF, c'))
    by (rewrite Hc; reflexivity).
  destruct (drain_pulls Hp He) as [fuel Hf].
  exists fuel, out, c'. split; [exact Hf|]. now rewrite Hc.
Qed.

(** The loop of [Convert] over pulls that end in [io.EOF], writing to a
    sink that accepts everything. *)
Lemma Convert_loop_Recorder (c c' : Converter (list jtoken)) out :
  pulls FormatFloat c out c' ->
  forall tk c'' w,
    Token FormatFloat c' = (tk, Some EOF, c'') ->
    exists fuel,
      Convert_loop FormatFloat fuel c (mkRecorder w)
      = Some (Break, mkRecorder (w ++ out)).
Proof.
  induction 1 as [c|c t c1 out c2 Ht _ IH]; intros tk c'' w He.
  - exists 1. cbn [Convert_loop]. unfold loop_body. rewrite He.
    now rewrite app_nil_r.
  - destruct (IH _ _ (w ++ [t]) He) as [fuel Hf]. exists (S fuel).
    cbn [Convert_loop]. unfold loop_body. rewrite Ht.
    cbn. cbn in Hf. now rewrite Hf, <- app_assoc.
Qed.

(** X10. On the tokens of any document [Convert] succeeds, and what it writes
    is what the converter hands out, between the two [root] tags. *)
Theorem Convert_document (v : jvalue) :
  exists fuel out c',
    pulls FormatFloat (Tokens (tokens_of v)) out c'
    /\ types c' = []
    /\ Convert FormatFloat fuel (tokens_of v) (mkRecorder [])
       = Some (None,
               mkRecorder (StartElement root :: out ++ [EndElement root])).
Proof.
  destruct (document_pulls v) as (out & c' & Hp & Hc).
  assert (He : Token FormatFloat c' = (None, Some EOF, c'))
    by (rewrite Hc; reflexivity).
  destruct (Convert_loop_Recorder Hp [StartElement root] He) as [fuel Hf].
  exists fuel, out, c'. split; [exact Hp|]. split; [now rewrite Hc|].
  unfold Convert. fold (Tokens (tokens_of v)).
  cbn [EncodeToken Recorder_encoder written app].
  change (EncodeToken (StartElement root) (mkRecorder []))
    with (@None error, mkRecorder [StartElement root]).
  cbv iota beta. rewrite Hf. reflexivity.
Qed.

(** *** Documents without arrays *)

Lemma pulls_snoc (c c1 c2 : Converter (list jtoken)) out t :
  pulls FormatFloat c out c1 ->
  Token FormatFloat c1 = (Some t, None, c2) ->
  pulls FormatFloat c (out ++ [t]) c2.
Proof.
  intros Hp Ht. apply pulls_app with c1; [exact Hp|].
  econstructor; [exact Ht | constructor].
Qed.

(** Opening a frame with no array binding and at most one key pending. *)
Lemma outputStart_unbound typ d T dat (ks : list string) :
  ks = [] \/ (exists k, ks = [k]) ->
  outputStart typ (mkConverter d T dat ks [])
  = (StartElement match ks with [] => ttypeNames typ | k :: _ => k end,
     @mkConverter (list jtoken) d (T ++ [typ]) dat [] []).
Proof. intros [-> | [k ->]]; reflexivity. Qed.

(** Closing a frame with both key stacks empty. *)
Lemma ret_end_by_kind typ (d : list jtoken) T :
  ret_end (mkConverter d (T ++ [typ]) None [] [])
  = (Some (EndElement (ttypeNames typ)), None, mkConverter d T None [] []).
Proof.
  unfold ret_end, outputEnd. fields. rewrite top_snoc, pop_snoc. reflexivity.
Qed.

Lemma scalar_closes_by_kind (v : jvalue) tok :
  tokens_of v = [tok] ->
  (exists text, scalar_frame FormatFloat tok = Some (kind_of v, text)) ->
  closes_by_kind FormatFloat v.
Proof.
  intros Hv (text & Hs) T ks t ts rest Ht Hks.
  rewrite Hv in Ht. injection Ht as <- <-. cbn [app].
  rewrite Token_switch_scalar with (1 := Hs).
  unfold outputType, set_data, ret_token. fields.
  rewrite outputStart_unbound by exact Hks. cbn [fst snd].
  eexists. exists [CharData text]. split; [reflexivity|].
  econstructor; [reflexivity|]. econstructor; [|constructor].
  rewrite Token_closes_scalar;
    [apply ret_end_by_kind | reflexivity
     | fields; rewrite scalar_on_top_snoc; eapply scalar_frame_kind; exact Hs].
Qed.

(** The members of an array-free object. *)
Lemma members_close_by_kind (ms : list (string * jvalue)) :
  Forall (fun kv => closes_by_kind FormatFloat (snd kv)) ms ->
  forall T rest,
    exists out,
      pulls FormatFloat
        (mkConverter (members_tokens ms ++ rest) (T ++ [typObject]) None [] [])
        out (mkConverter rest (T ++ [typObject]) None [] []).
Proof.
  induction 1 as [|[k v] ms Hv _ IH]; intros T rest.
  - exists []. constructor.
  - cbn [members_tokens flat_map fst snd app].
    rewrite <- app_assoc. fold (members_tokens ms).
    destruct (tokens_of_first v) as (t & ts & Hv0). rewrite Hv0. cbn [app].
    destruct (Hv (T ++ [typObject]) [k] t ts (members_tokens ms ++ rest) Hv0)
      as (c1 & mid & Hsw & Hp); [right; eauto|].
    destruct (IH T rest) as [out Hrest].
    exists (StartElement k :: (mid ++ [EndElement (ttypeNames (kind_of v))])
            ++ out).
    econstructor; [|apply pulls_app with (1 := Hp); exact Hrest].
    rewrite <- Hsw.
    apply (@Token_key FormatFloat _ Script
             (mkConverter (JString k :: t :: ts ++ members_tokens ms ++ rest)
                (T ++ [typObject]) None [] [])
             k t (t :: ts ++ members_tokens ms ++ rest));
      try reflexivity.
    apply top_snoc.
Qed.

(** Every array-free document is closed under the name of its kind. *)
Lemma array_free_closes_by_kind (v : jvalue) :
  array_free v = true -> closes_by_kind FormatFloat v.
Proof.
  induction v as [ms IH|vs IH|b|f|s|s|] using jvalue_induction; intro Hfree.
  - intros T ks t ts rest Ht Hks. cbn [tokens_of] in Ht.
    fold (members_tokens ms) in Ht. injection Ht as <- <-.
    rewrite <- app_assoc. cbn [app].
    rewrite Token_switch_lbrace. unfold ret_token.
    rewrite outputStart_unbound by exact Hks. cbn [fst snd kind_of].
    assert (Hall : Forall (fun kv => closes_by_kind FormatFloat (snd kv)) ms).
    { cbn [array_free] in Hfree. rewrite forallb_forall in Hfree.
      rewrite Forall_forall in IH |- *. intros kv Hin.
      apply IH; [exact Hin | now apply Hfree]. }
    destruct (members_close_by_kind Hall T (JDelim rbrace :: rest))
      as [out Hp].
    eexists. exists out. split; [reflexivity|].
    apply pulls_snoc with (1 := Hp).
    rewrite (@Token_plain FormatFloat _ Script
               (mkConverter (JDelim rbrace :: rest) (T ++ [typObject])
                  None [] [])
               (JDelim rbrace) rest);
      try reflexivity.
    + rewrite Token_switch_rbrace. fields. rewrite top_is_snoc. cbn [ttype_eqb negb].
      apply ret_end_by_kind.
    + fields. now rewrite scalar_on_top_snoc.
    + apply andb_false_r.
  - discriminate Hfree.
  - apply scalar_closes_by_kind with (JBool b); cbn; eauto.
  - apply scalar_closes_by_kind with (JFloat f); cbn; eauto.
  - apply scalar_closes_by_kind with (JNumber s); cbn; eauto.
  - apply scalar_closes_by_kind with (JString s); cbn; eauto.
  - apply scalar_closes_by_kind with JNil; cbn; eauto.
Qed.

(** A field whose value has no array in it, read with an object on top
    and both key stacks empty: its frame is opened under the key and
    closed under the default name of the value's kind, and both key
    stacks are empty again. *)
Theorem keyed_array_free_value (k : string) (v : jvalue) T rest :
  array_free v = true ->
  exists mid,
    pulls FormatFloat
      (mkConverter (JString k :: tokens_of v ++ rest) (T ++ [typObject])
         None [] [])
      (StartElement k :: mid ++ [EndElement (ttypeNames (kind_of v))])
      (mkConverter rest (T ++ [typObject]) None [] []).
Proof.
  intro Hfree.
  apply array_free_closes_by_kind in Hfree.
  destruct (tokens_of_first v) as (t & ts & Hv).
  destruct (Hfree (T ++ [typObject]) [k] t ts rest Hv)
    as (c1 & mid & Hsw & Hp); [right; eauto|].
  exists mid. rewrite Hv. cbn [app].
  econstructor; [|exact Hp]. rewrite <- Hsw.
  apply (@Token_key FormatFloat _ Script
           (mkConverter (JString k :: t :: ts ++ rest) (T ++ [typObject])
              None [] [])
           k t (t :: ts ++ rest));
    try reflexivity.
  apply top_snoc.
Qed.
End ScriptRuns.

(** ** Termination over token lists *)

Section ScriptTotal.
Variable FormatFloat : float64 -> string.
Context {X : Type} {XE : XMLEncoder X}.

Lemma pulls_left_start (typ : ttype) (c : Converter (list jtoken)) :
  pulls_left (snd (outputStart typ c)) = S (pulls_left c).
Proof.
  destruct (outputStart_frame typ c) as (Hd & Ht & Hda).
  unfold pulls_left. rewrite Hd, Ht, Hda, length_app. cbn. lia.
Qed.

Lemma pulls_left_end (c : Converter (list jtoken)) tk err c' :
  ret_end c = (tk, err, c') -> pulls_left c' <= pulls_left c.
Proof.
  unfold ret_end. destruct (outputEnd c) as [[t c1]|] eqn:E.
  - intro H. injection H as _ _ <-.
    destruct (outputEnd_frame _ E) as (Hd & Ht & Hda).
    unfold pulls_left. rewrite Hd, Ht, Hda.
    unfold outputEnd in E. destruct (top (types c)) as [typ|] eqn:Etop;
      [|discriminate].
    rewrite (length_pop _ Etop). lia.
  - intro H. injection H as _ _ <-. lia.
Qed.

(** The type switch adds at most a frame and a pending text. *)
Lemma Token_switch_left token (c : Converter (list jtoken)) tk err c' :
  data c = None ->
  Token_switch FormatFloat token c = (tk, err, c') ->
  pulls_left c' <= pulls_left c + 2.
Proof.
  intros Hd. unfold Token_switch, outputType, ret_token, ret_error.
  assert (Hty : forall typ text,
             pulls_left (snd (outputStart typ (set_data c (Some text))))
             = pulls_left c + 2).
  { intros typ text. rewrite pulls_left_start. unfold pulls_left. fields.
    rewrite Hd. lia. }
  destruct token as [r| | | | | |];
    try (intro H; injection H as _ _ <-; rewrite ?Hty; lia).
  destruct (Z.eqb r lbrace).
  { intro H. injection H as _ _ <-. rewrite pulls_left_start. lia. }
  destruct (Z.eqb r lbrack).
  { intro H. injection H as _ _ <-. rewrite pulls_left_start.
    destruct (top (keyNames c)); unfold pulls_left; fields; lia. }
  destruct (Z.eqb r rbrace).
  { destruct (negb _); intro H;
      [injection H as _ _ <-; lia | apply pulls_left_end in H; lia]. }
  destruct (Z.eqb r rbrack); [|intro H; injection H as _ _ <-; lia].
  destruct (negb _); intro H; [injection H as _ _ <-; lia|].
  apply pulls_left_end in H.
  destruct (arrayKeys c); unfold pulls_left in *; fields; lia.
Qed.

(** Every pull that succeeds uses up some of the bound. *)
Lemma Token_left (c : Converter (list jtoken)) tk c' :
  Token FormatFloat c = (tk, None, c') -> pulls_left c' < pulls_left c.
Proof.
  unfold Token. destruct (data c) as [text|] eqn:Hd.
  { intro H. injection H as _ <-. unfold pulls_left. fields. rewrite Hd. lia. }
  destruct (scalar_on_top (types c)) eqn:Hs.
  { intro H. unfold scalar_on_top in Hs.
    destruct (top (types c)) as [typ|] eqn:Ht; [|discriminate].
    destruct (ret_end_frame c Ht) as (t & c1 & Hr & Hdec & Hty & Hda).
    rewrite Hr in H. injection H as _ <-.
    unfold pulls_left. rewrite Hdec, Hty, Hda, Hd, (length_pop _ Ht). lia. }
  unfold read. destruct (decoder c) as [|t d] eqn:Hdec.
  { cbn. discriminate. }
  cbn [decoder_Token Script]. fields.
  assert (Hc : forall ks, pulls_left (mkConverter d (types c) None ks
                                        (arrayKeys c)) + 3 = pulls_left c).
  { intro ks. unfold pulls_left. fields. rewrite Hdec, Hd. cbn [List.length].
    lia. }
  destruct (top_is typObject (types c) && negb (is_rbrace t)).
  - destruct t; try discriminate. fields.
    destruct d as [|t2 d2]; [cbn; discriminate|].
    cbn [decoder_Token Script]. fields. intro H.
    apply Token_switch_left in H; [|now fields].
    specialize (Hc (keyNames c ++ [s])).
    unfold set_decoder, set_keyNames, pulls_left in *. fields.
    rewrite Hd in *. cbn [List.length] in *. lia.
  - intro H. apply Token_switch_left in H; [|now fields].
    specialize (Hc (keyNames c)).
    unfold set_decoder, pulls_left in *. fields. rewrite Hd in *. lia.
Qed.

Lemma Convert_loop_total (fuel : nat) :
  forall (c : Converter (list jtoken)) (x : X),
    pulls_left c < fuel ->
    exists r, Convert_loop FormatFloat fuel c x = Some r.
Proof.
  induction fuel as [|fuel IH]; intros c x Hlt; [lia|].
  cbn [Convert_loop].
  destruct (loop_body FormatFloat c x) as [[c' x']|r] eqn:Eb; [|eauto].
  apply loop_body_continue in Eb. destruct Eb as (t & Ht & _).
  apply Token_left in Ht. apply IH. lia.
Qed.

(** X8. Over a token list [Convert] always returns, within three turns of
    the loop per token and one more. *)
Theorem Convert_total (j : list jtoken) (x : X) :
  exists r, Convert FormatFloat (3 * List.length j + 1) j x = Some r.
Proof.
  unfold Convert. fold (Tokens j).
  destruct (EncodeToken (StartElement root) x) as [[e|] x1]; [eauto|].
  destruct (@Convert_loop_total (3 * List.length j + 1) (Tokens j) x1)
    as [[ex x2] Hr].
  - unfold pulls_left. cbn. lia.
  - rewrite Hr. destruct ex; [|eauto].
    destruct (EncodeToken (EndElement root) x2) as [[e|] x3]; eauto.
Qed.
End ScriptTotal.

(** ** One input stream, one output *)

Section Determinism.
Variable FormatFloat : float64 -> string.
Context {D1 : Type} {JD1 : JSONDecoder D1} {D2 : Type} {JD2 : JSONDecoder D2}.
Context {X : Type} {XE : XMLEncoder X}.

Lemma same_answers_step (d1 : D1) (d2 : D2) :
  same_answers d1 d2 ->
  fst (decoder_Token d1) = fst (decoder_Token d2)
  /\ same_answers (snd (decoder_Token d1)) (snd (decoder_Token d2)).
Proof.
  intro H. split.
  - specialize (H 1). cbn [observe] in H.
    destruct (decoder_Token d1), (decoder_Token d2). now injection H.
  - intro n. specialize (H (S n)). cbn [observe] in H.
    destruct (decoder_Token d1), (decoder_Token d2). now injection H.
Qed.

(** The part of a pull that does not read is blind to the decoder. *)
Lemma ret_end_redecode (c : Converter D1) (d : D2) :
  ret_end (redecode c d)
  = (fst (ret_end c), redecode (snd (ret_end c)) d).
Proof.
  destruct c as [d0 ts dat ks aks].
  unfold ret_end, outputEnd, redecode. by_cases.
Qed.

Lemma ret_end_decoder (c : Converter D1) :
  decoder (snd (ret_end c)) = decoder c.
Proof.
  destruct c as [d0 ts dat ks aks]. unfold ret_end, outputEnd. by_cases.
Qed.

Lemma Token_switch_redecode token (c : Converter D1) (d : D2) :
  Token_switch FormatFloat token (redecode c d)
  = (fst (Token_switch FormatFloat token c),
     redecode (snd (Token_switch FormatFloat token c)) d).
Proof.
  destruct c as [d0 ts dat ks aks].
  unfold Token_switch, outputType, outputStart, ret_token, ret_error,
    ret_end, outputEnd, redecode.
  destruct token; by_cases.
Qed.

Lemma Token_switch_decoder token (c : Converter D1) :
  decoder (snd (Token_switch FormatFloat token c)) = decoder c.
Proof.
  destruct c as [d0 ts dat ks aks].
  unfold Token_switch, outputType, outputStart, ret_token, ret_error,
    ret_end, outputEnd.
  destruct token; by_cases.
Qed.

Lemma alike_redecode (c : Converter D1) (d : D2) :
  same_answers (decoder c) d -> alike c (redecode c d).
Proof. intro H. split; [exact H | reflexivity]. Qed.

Lemma Token_switch_alike token (c : Converter D1) (d : D2) :
  same_answers (decoder c) d ->
  fst (Token_switch FormatFloat token c)
  = fst (Token_switch FormatFloat token (redecode c d))
  /\ alike (snd (Token_switch FormatFloat token c))
           (snd (Token_switch FormatFloat token (redecode c d))).
Proof.
  intro H. rewrite Token_switch_redecode. cbn [fst snd].
  split; [reflexivity|]. apply alike_redecode.
  now rewrite Token_switch_decoder.
Qed.

Lemma Token_alike (c1 : Converter D1) (c2 : Converter D2) :
  alike c1 c2 ->
  fst (Token FormatFloat c1) = fst (Token FormatFloat c2)
  /\ alike (snd (Token FormatFloat c1)) (snd (Token FormatFloat c2)).
Proof.
  intros [Hs Hc]. rewrite Hc. generalize dependent (decoder c2).
  intros d2 Hs _. clear c2. destruct c1 as [d1 ts dat ks aks].
  unfold Token, read, redecode. fields.
  destruct dat as [text|].
  { split; [reflexivity|]. now apply (alike_redecode (mkConverter _ _ _ _ _)). }
  destruct (scalar_on_top ts).
  { change (mkConverter d2 ts None ks aks)
      with (redecode (mkConverter d1 ts None ks aks) d2).
    rewrite ret_end_redecode. cbn [fst snd]. split; [reflexivity|].
    apply alike_redecode. now rewrite ret_end_decoder. }
  destruct (same_answers_step Hs) as [Hfst Hnext].
  destruct (decoder_Token d1) as [[t1 e1] d1'].
  destruct (decoder_Token d2) as [[t2 e2] d2'].
  cbn [fst snd] in Hfst, Hnext. injection Hfst as <- <-. fields.
  destruct e1 as [e|].
  { split; [reflexivity|]. now apply (alike_redecode (mkConverter _ _ _ _ _)). }
  destruct (top_is typObject ts && negb (is_rbrace t1)).
  2: { apply (Token_switch_alike t1 (mkConverter d1' ts None ks aks)).
       exact Hnext. }
  destruct t1;
    try (split; [reflexivity
                | now apply (alike_redecode (mkConverter _ _ _ _ _))]).
  destruct (same_answers_step Hnext) as [Hfst2 Hnext2].
  destruct (decoder_Token d1') as [[t1 e1] d1''].
  destruct (decoder_Token d2') as [[t2 e2] d2''].
  cbn [fst snd] in Hfst2, Hnext2. injection Hfst2 as <- <-. fields.
  destruct e1 as [e|].
  { split; [reflexivity|]. now apply (alike_redecode (mkConverter _ _ _ _ _)). }
  apply (Token_switch_alike t1 (mkConverter d1'' ts None (ks ++ [s]) aks)).
  exact Hnext2.
Qed.

(** Alike converters take the same turn of the loop. *)
Lemma loop_body_alike (c1 : Converter D1) (c2 : Converter D2) (x : X) :
  alike c1 c2 ->
  match loop_body FormatFloat c1 x, loop_body FormatFloat c2 x with
  | inl (c1', x1), inl (c2', x2) => alike c1' c2' /\ x1 = x2
  | inr r1, inr r2 => r1 = r2
  | _, _ => False
  end.
Proof.
  intro H. destruct (Token_alike H) as [Hf Ha]. unfold loop_body.
  destruct (Token FormatFloat c1) as [[tk1 e1] c1'].
  destruct (Token FormatFloat c2) as [[tk2 e2] c2'].
  cbn [fst snd] in Hf, Ha. injection Hf as <- <-.
  destruct e1 as [e|]; [now destruct (is_EOF e)|].
  destruct tk1 as [t|]; [|now split].
  destruct (EncodeToken t x) as [[e|] x']; [reflexivity | now split].
Qed.

Lemma Convert_loop_alike (fuel : nat) :
  forall (c1 : Converter D1) (c2 : Converter D2) (x : X),
    alike c1 c2 ->
    Convert_loop FormatFloat fuel c1 x = Convert_loop FormatFloat fuel c2 x.
Proof.
  induction fuel as [|fuel IH]; intros c1 c2 x H; [reflexivity|].
  cbn [Convert_loop]. pose proof (loop_body_alike x H) as Hb.
  destruct (loop_body FormatFloat c1 x) as [[c1' x1]|r1],
           (loop_body FormatFloat c2 x) as [[c2' x2]|r2];
    try contradiction.
  - destruct Hb as [Ha <-]. now apply IH.
  - now subst.
Qed.

(** C9. Two runs of [Convert], each with its own fresh converter, on
    decoders that give the same answers call after call and on the same
    sink: they return the same error and leave the sink in the same
    state, so the token sequences they wrote are the same. *)
Theorem Convert_deterministic (j1 : D1) (j2 : D2) :
  (forall n, observe n j1 = observe n j2) ->
  forall (fuel : nat) (x : X),
    Convert FormatFloat fuel j1 x = Convert FormatFloat fuel j2 x.
Proof.
  intros H fuel x. unfold Convert. fold (Tokens j1) (Tokens j2).
  destruct (EncodeToken (StartElement root) x) as [[e|] x1]; [reflexivity|].
  rewrite (@Convert_loop_alike fuel (Tokens j1) (Tokens j2) x1);
    [reflexivity|].
  split; [exact H | reflexivity].
Qed.
End Determinism.

(** Reading a list through a cursor gives the answers of reading it by
    consumption. *)
Lemma observe_Cursor (n : nat) :
  forall (l : list jtoken) (i : nat),
    observe n (skipn i l) = observe n (mkCursor l i).
Proof.
  induction n as [|n IH]; intros l i; [reflexivity|].
  cbn [observe]. unfold decoder_Token at 2, Cursor_decoder.
  cbn [buffer position].
  destruct (nth_error l i) as [t|] eqn:E.
  - assert (Hs : skipn i l = t :: skipn (S i) l).
    { clear IH. revert l E. induction i as [|i IHi]; intros [|a l] E;
        try discriminate.
      - now injection E as ->.
      - cbn [skipn]. cbn [nth_error] in E. now apply IHi. }
    rewrite Hs. cbn -[skipn]. f_equal. apply IH.
  - assert (Hs : skipn i l = []).
    { apply skipn_all2. now apply nth_error_None. }
    rewrite Hs. cbn. f_equal. rewrite <- Hs. apply IH.
Qed.

(** The tokens of [{"a":[true]}] read by consumption and read through a
    cursor. *)
Lemma Convert_deterministic_witness :
  let doc := tokens_of (VObject [("a", VArray [VBool true])]) in
  Convert FormatFloat_integral 12 doc (mkRecorder [])
  = Convert FormatFloat_integral 12 (mkCursor doc 0) (mkRecorder []).
Proof.
  intro doc.
  apply (@Convert_deterministic FormatFloat_integral (list jtoken) Script
           Cursor Cursor_decoder Recorder Recorder_encoder doc
           (mkCursor doc 0)).
  intro n. exact (observe_Cursor n doc 0).
Defined.

(** ** Three documents *)

(** C2, as the code has it.  On the tokens of [{"tags":["x","y"]}]
    [Convert] succeeds and writes
    [<root><object><tags><tags>x</tags><tags>y</tags></tags></object></root>]:
    the array and both of its strings are named by the key [tags], inside
    the element [object] of the root object. *)
Theorem tags_document (FormatFloat : float64 -> string) (fuel : nat) :
  11 <= fuel ->
  Convert FormatFloat fuel tags_tokens (mkRecorder [])
  = Some (None, mkRecorder tags_output)
  /\ render tags_output
     = "<root><object><tags><tags>x</tags><tags>y</tags></tags></object></root>".
Proof.
  intro Hf. split; [|reflexivity].
  apply Convert_more with (fuel := 11); [reflexivity | exact Hf].
Qed.

(** With just enough fuel. *)
Lemma tags_document_witness :
  Convert FormatFloat_integral 11 tags_tokens (mkRecorder [])
  = Some (None, mkRecorder tags_output).
Proof. exact (proj1 (tags_document FormatFloat_integral (le_n 11))). Defined.

(** C2 as stated fails: what is written is not
    [<root><tags><tags>x</tags><tags>y</tags></tags></root>]; the root
    object has an element of its own. *)
Lemma tags_document_has_object_element :
  exists out,
    Convert FormatFloat_integral 11 tags_tokens (mkRecorder [])
    = Some (None, mkRecorder out)
    /\ nth_error out 1 = Some (StartElement "object")
    /\ render out
       <> "<root><tags><tags>x</tags><tags>y</tags></tags></root>".
Proof.
  exists tags_output. split; [reflexivity|]. split; [reflexivity|].
  cbv. discriminate.
Qed.

(** C3, as the code has it.  On the tokens of [{"a":1}] [Convert]
    succeeds and writes [<root><object><a>1</number></object></root>]:
    the start tag [a], the text [1], the end tag [number], inside the
    element [object] of the root object. *)
Theorem a_document
    (FormatFloat : float64 -> string) (n1 : jtoken) (fuel : nat) :
  scalar_frame FormatFloat n1 = Some (typNumber, "1") ->
  6 <= fuel ->
  Convert FormatFloat fuel (a_tokens n1) (mkRecorder [])
  = Some (None, mkRecorder a_output)
  /\ render a_output = "<root><object><a>1</number></object></root>".
Proof.
  intros H1 Hf. split; [|reflexivity].
  apply Convert_more with (fuel := 6); [|exact Hf].
  number_token H1; cbv; now rewrite ?H1.
Qed.

(** The number as a float64. *)
Lemma a_document_witness :
  Convert FormatFloat_integral 6 (a_tokens (JFloat (float64_of_Z 1)))
    (mkRecorder [])
  = Some (None, mkRecorder a_output).
Proof.
  exact (proj1 (@a_document FormatFloat_integral (JFloat (float64_of_Z 1)) 6
                  eq_refl (le_n 6))).
Defined.

(** C3 as stated fails: the output does not start with [<root><a>]; the
    second token written is the start tag [object]. *)
Lemma a_document_has_object_element :
  exists out,
    Convert FormatFloat_integral 6 (a_tokens (JFloat (float64_of_Z 1)))
      (mkRecorder [])
    = Some (None, mkRecorder out)
    /\ nth_error out 1 = Some (StartElement "object")
    /\ firstn 2 out <> [StartElement "root"; StartElement "a"]
    /\ String.prefix "<root><a>" (render out) = false.
Proof.
  exists a_output. split; [reflexivity|]. split; [reflexivity|].
  split; [cbv; discriminate | reflexivity].
Qed.

(** C4. On the tokens of [[1,2,3]] [Convert] succeeds and writes
    [<root><array><number>1</number><number>2</number><number>3</number></array></root>]:
    no key is ever pending, and every element is named by its kind. *)
Theorem array_document
    (FormatFloat : float64 -> string) (n1 n2 n3 : jtoken) (fuel : nat) :
  scalar_frame FormatFloat n1 = Some (typNumber, "1") ->
  scalar_frame FormatFloat n2 = Some (typNumber, "2") ->
  scalar_frame FormatFloat n3 = Some (typNumber, "3") ->
  12 <= fuel ->
  Convert FormatFloat fuel (array_tokens n1 n2 n3) (mkRecorder [])
  = Some (None, mkRecorder array_output)
  /\ render array_output
     = "<root><array><number>1</number><number>2</number><number>3</number></array></root>".
Proof.
  intros H1 H2 H3 Hf. split; [|reflexivity].
  apply Convert_more with (fuel := 12); [|exact Hf].
  number_token H1; number_token H2; number_token H3;
    cbv; now rewrite ?H1, ?H2, ?H3.
Qed.

(** The numbers as float64 values. *)
Lemma array_document_witness :
  Convert FormatFloat_integral 12
    (array_tokens (JFloat (float64_of_Z 1)) (JFloat (float64_of_Z 2))
       (JFloat (float64_of_Z 3)))
    (mkRecorder [])
  = Some (None, mkRecorder array_output).
Proof.
  exact (proj1 (@array_document FormatFloat_integral
                  (JFloat (float64_of_Z 1)) (JFloat (float64_of_Z 2))
                  (JFloat (float64_of_Z 3)) 12
                  eq_refl eq_refl eq_refl (le_n 12))).
Defined.

(** ** What every pull does to the frame stack *)

Lemma starts_app (o1 o2 : list xtoken) : starts (o1 ++ o2) = starts o1 + starts o2.
Proof. unfold starts. now rewrite filter_app, length_app. Qed.

Lemma ends_app (o1 o2 : list xtoken) : ends (o1 ++ o2) = ends o1 + ends o2.
Proof. unfold ends. now rewrite filter_app, length_app. Qed.

Lemma forallb_pop {A : Type} (f : A -> bool) (s : list A) :
  forallb f s = true -> forallb f (pop s) = true.
Proof.
  destruct (top s) as [x|] eqn:E.
  - rewrite (top_Some_snoc _ E) at 1. rewrite forallb_app.
    intro H. now apply andb_true_iff in H.
  - now rewrite (top_None _ E).
Qed.

Lemma containers_below (ts : list ttype) :
  scalar_on_top ts = false ->
  forallb is_container (pop ts) = true ->
  forallb is_container ts = true.
Proof.
  unfold scalar_on_top. destruct (top ts) as [typ|] eqn:E.
  - intros Hs Hp. rewrite (top_Some_snoc _ E), forallb_app, Hp.
    now destruct typ.
  - now rewrite (top_None _ E).
Qed.

Section PullShape.
Variable FormatFloat : float64 -> string.
Context {D : Type} {JD : JSONDecoder D}.

Lemma outputStart_is_start (typ : ttype) (c : Converter D) :
  exists n, fst (outputStart typ c) = StartElement n.
Proof.
  unfold outputStart. fields.
  destruct (top (keyNames c)) as [k|]; [|cbn; eauto].
  destruct (bound_to k (arrayKeys c)); cbn; eauto.
Qed.

Lemma outputStart_arrayKeys (typ : ttype) (c : Converter D) :
  arrayKeys (snd (outputStart typ c)) = arrayKeys c.
Proof.
  unfold outputStart. fields. destruct (top (keyNames c)) as [k|]; [|reflexivity].
  destruct (bound_to k (arrayKeys c)); reflexivity.
Qed.

Lemma outputEnd_is_end (c : Converter D) t c' :
  outputEnd c = Some (t, c') ->
  (exists n, t = EndElement n) /\ arrayKeys c' = arrayKeys c.
Proof.
  unfold outputEnd. destruct (top (types c)); [|discriminate]. fields.
  destruct (shared_name (keyNames c) (arrayKeys c)).
  - intro H. injection H as <- <-. eauto.
  - destruct (top (keyNames c)); intro H; injection H as <- <-; eauto.
Qed.

(** The result of closing the frame on top. *)
Lemma ret_end_shape (c : Converter D) tk err c' :
  ret_end c = (tk, err, c') ->
  err = None
  /\ (tk = None /\ c' = c /\ top (types c) = None
      \/ exists n typ,
          tk = Some (EndElement n) /\ top (types c) = Some typ
          /\ types c' = pop (types c) /\ data c' = data c
          /\ decoder c' = decoder c /\ arrayKeys c' = arrayKeys c).
Proof.
  unfold ret_end. destruct (outputEnd c) as [[t c1]|] eqn:E; intro H.
  - injection H as <- <- <-. split; [reflexivity|]. right.
    destruct (outputEnd_is_end _ E) as [[n ->] Ha].
    destruct (outputEnd_frame _ E) as (Hd & Ht & Hda).
    unfold outputEnd in E. destruct (top (types c)) as [typ|]; [|discriminate].
    exists n, typ. auto 7.
  - injection H as <- <- <-. split; [reflexivity|]. left.
    unfold outputEnd in E. destruct (top (types c)); [|auto].
    fields. destruct (shared_name _ _); [discriminate|].
    destruct (top (keyNames c)); discriminate.
Qed.

(** The result of opening a frame. *)
Lemma ret_start_shape (typ : ttype) (c : Converter D) :
  exists n c',
    ret_token (outputStart typ c) = (Some (StartElement n), None, c')
    /\ types c' = types c ++ [typ] /\ data c' = data c
    /\ decoder c' = decoder c /\ arrayKeys c' = arrayKeys c.
Proof.
  destruct (outputStart_is_start typ c) as [n Hn].
  destruct (outputStart_frame typ c) as (Hd & Ht & Hda).
  exists n, (snd (outputStart typ c)). unfold ret_token. rewrite Hn.
  auto using outputStart_arrayKeys.
Qed.

(** What the type switch can hand back: an error that leaves the
    converter alone, a start tag with a frame pushed, or an end tag with
    the top frame popped. *)
Lemma Token_switch_shape token (c : Converter D) tk err c' :
  Token_switch FormatFloat token c = (tk, err, c') ->
  (tk = None /\ err <> None /\ c' = c)
  \/ (err = None /\ exists n typ,
        tk = Some (StartElement n) /\ types c' = types c ++ [typ]
        /\ decoder c' = decoder c
        /\ (data c' = data c /\ is_container typ = true
            /\ (typ = typArray
                  /\ List.length (arrayKeys c') <= S (List.length (arrayKeys c))
                \/ typ = typObject /\ arrayKeys c' = arrayKeys c)
            \/ data c' <> None /\ is_container typ = false
               /\ arrayKeys c' = arrayKeys c))
  \/ (err = None /\ exists n typ,
        tk = Some (EndElement n) /\ top (types c) = Some typ
        /\ is_container typ = true
        /\ types c' = pop (types c) /\ data c' = data c
        /\ decoder c' = decoder c
        /\ (typ = typArray
              /\ List.length (arrayKeys c') = pred (List.length (arrayKeys c))
            \/ typ = typObject /\ arrayKeys c' = arrayKeys c)).
Proof.
  assert (Hscalar : forall typ text r,
             is_container typ = false ->
             ret_token (outputType typ text c) = r ->
             r = (tk, err, c') ->
             err = None /\ exists n typ,
                 tk = Some (StartElement n) /\ types c' = types c ++ [typ]
                 /\ decoder c' = decoder c
                 /\ (data c' = data c /\ is_container typ = true
                     /\ (typ = typArray
                           /\ List.length (arrayKeys c')
                              <= S (List.length (arrayKeys c))
                         \/ typ = typObject /\ arrayKeys c' = arrayKeys c)
                     \/ data c' <> None /\ is_container typ = false
                        /\ arrayKeys c' = arrayKeys c)).
  { intros typ text r Hk Hr H. subst r. unfold outputType in H.
    destruct (ret_start_shape typ (set_data c (Some text)))
      as (n & c1 & Hs & Hty & Hda & Hdec & Hak).
    rewrite Hs in H. injection H as <- <- <-. split; [reflexivity|].
    exists n, typ. fields.
    split; [reflexivity|]. split; [assumption|]. split; [assumption|].
    right. rewrite Hda. split; [discriminate|]. split; assumption. }
  unfold Token_switch.
  destruct token as [r|b|f|s|s| |];
    try (intro H; right; left; eapply Hscalar; [| reflexivity | exact H];
         reflexivity).
  2: { intro H. injection H as <- <- <-. left. repeat split. discriminate. }
  destruct (Z.eqb r lbrace).
  { destruct (ret_start_shape typObject c)
      as (n & c1 & Hs & Hty & Hda & Hdec & Hak).
    rewrite Hs. intro H. injection H as <- <- <-. right. left.
    split; [reflexivity|]. exists n, typObject. auto 10. }
  destruct (Z.eqb r lbrack).
  { match goal with
    | |- ret_token (outputStart typArray ?c0) = _ -> _ =>
        destruct (ret_start_shape typArray c0)
          as (n & c1 & Hs & Hty & Hda & Hdec & Hak);
        assert (Hc0 : types c0 = types c /\ data c0 = data c
                      /\ decoder c0 = decoder c
                      /\ List.length (arrayKeys c0)
                         <= S (List.length (arrayKeys c)))
          by (destruct (top (keyNames c)); fields;
              rewrite ?length_app; cbn; repeat split; lia)
    end.
    destruct Hc0 as (H1 & H2 & H3 & H4).
    rewrite Hs. intro H. injection H as <- <- <-. right. left.
    split; [reflexivity|]. exists n, typArray.
    rewrite Hty, Hda, Hdec, Hak, H1, H2, H3. auto 10. }
  destruct (Z.eqb r rbrace).
  { destruct (top_is typObject (types c)) eqn:Ht; cbn [negb].
    - apply top_is_true in Ht. intro H.
      apply ret_end_shape in H. destruct H as [-> [(_ & _ & Hn) | H]];
        [congruence|].
      destruct H as (n & typ & -> & Htop & Hty & Hda & Hdec & Hak).
      right. right. split; [reflexivity|]. exists n, typ.
      assert (typ = typObject) by congruence. subst typ. auto 12.
    - intro H. injection H as <- <- <-. left. repeat split. discriminate. }
  destruct (Z.eqb r rbrack).
  2: { intro H. injection H as <- <- <-. left. repeat split. discriminate. }
  destruct (top_is typArray (types c)) eqn:Ht; cbn [negb].
  - apply top_is_true in Ht. intro H.
    apply ret_end_shape in H. destruct H as [-> H].
    assert (Hc0 : forall c0,
               c0 = match arrayKeys c with
                    | [] => c
                    | _ :: _ => set_arrayKeys c (pop (arrayKeys c))
                    end ->
               types c0 = types c /\ data c0 = data c
               /\ decoder c0 = decoder c
               /\ List.length (arrayKeys c0) = pred (List.length (arrayKeys c))).
    { intros c0 ->. destruct (arrayKeys c) as [|a l] eqn:Ea;
        [rewrite Ea; auto|]. fields. repeat split.
      destruct (top (a :: l)) as [x|] eqn:Etop.
      - rewrite (length_pop _ Etop). reflexivity.
      - apply top_None in Etop. discriminate. }
    specialize (Hc0 _ eq_refl). destruct Hc0 as (H1 & H2 & H3 & H4).
    destruct H as [(_ & _ & Hn) | H]; [rewrite H1 in Hn; congruence|].
    destruct H as (n & typ & -> & Htop & Hty & Hda & Hdec & Hak).
    rewrite H1 in Htop, Hty. rewrite H2 in Hda. rewrite H3 in Hdec.
    rewrite <- Hak in H4.
    right. right. split; [reflexivity|]. exists n, typ.
    assert (typ = typArray) by congruence. subst typ. auto 12.
  - intro H. injection H as <- <- <-. left. repeat split. discriminate.
Qed.

(** What a pull can do: hand out the pending text; fail and leave the
    stacks of frames and bindings alone; open a frame; or close the one
    on top. *)
Lemma Token_shape (c : Converter D) tk err c' :
  Token FormatFloat c = (tk, err, c') ->
  (exists text,
      data c = Some text /\ tk = Some (CharData text) /\ err = None
      /\ c' = set_data c None)
  \/ (data c = None /\ scalar_on_top (types c) = false
      /\ tk = None /\ err <> None
      /\ types c' = types c /\ data c' = None
      /\ arrayKeys c' = arrayKeys c)
  \/ (data c = None /\ scalar_on_top (types c) = false /\ err = None
      /\ exists n typ,
          tk = Some (StartElement n) /\ types c' = types c ++ [typ]
          /\ (data c' <> None -> is_container typ = false)
          /\ (typ = typArray
                /\ List.length (arrayKeys c') <= S (List.length (arrayKeys c))
              \/ typ <> typArray /\ arrayKeys c' = arrayKeys c))
  \/ (data c = None /\ err = None
      /\ exists n typ,
          tk = Some (EndElement n) /\ top (types c) = Some typ
          /\ types c' = pop (types c) /\ data c' = None
          /\ (typ = typArray
                /\ List.length (arrayKeys c') = pred (List.length (arrayKeys c))
              \/ typ <> typArray /\ arrayKeys c' = arrayKeys c)).
Proof.
  unfold Token. destruct (data c) as [text|] eqn:Hd.
  { intro H. injection H as <- <- <-. left. eauto. }
  destruct (scalar_on_top (types c)) eqn:Hs.
  { intro H. apply ret_end_shape in H. destruct H as [-> H].
    unfold scalar_on_top in Hs.
    destruct H as [(_ & _ & Hn) | (n & typ & -> & Htop & Hty & Hda & _ & Hak)];
      [rewrite Hn in Hs; discriminate|].
    right. right. right. split; [reflexivity|]. split; [reflexivity|].
    exists n, typ. rewrite Hda, Hd. repeat (split; [auto|]).
    right. split; [|exact Hak]. rewrite Htop in Hs. now destruct typ. }
  assert (Hsw : forall token (cm : Converter D),
             types cm = types c -> data cm = None ->
             arrayKeys cm = arrayKeys c ->
             Token_switch FormatFloat token cm = (tk, err, c') ->
             (None = @None string /\ false = false
              /\ tk = None /\ err <> None
              /\ types c' = types c /\ data c' = None
              /\ arrayKeys c' = arrayKeys c)
             \/ (None = @None string /\ false = false /\ err = None
                 /\ exists n typ,
                     tk = Some (StartElement n) /\ types c' = types c ++ [typ]
                     /\ (data c' <> None -> is_container typ = false)
                     /\ (typ = typArray
                           /\ List.length (arrayKeys c')
                              <= S (List.length (arrayKeys c))
                         \/ typ <> typArray /\ arrayKeys c' = arrayKeys c))
             \/ (None = @None string /\ err = None
                 /\ exists n typ,
                     tk = Some (EndElement n) /\ top (types c) = Some typ
                     /\ types c' = pop (types c) /\ data c' = None
                     /\ (typ = typArray
                           /\ List.length (arrayKeys c')
                              = pred (List.length (arrayKeys c))
                         \/ typ <> typArray /\ arrayKeys c' = arrayKeys c))).
  { intros token cm Hty Hda Hak H. apply Token_switch_shape in H.
    destruct H as [(-> & He & ->) | [(-> & H) | (-> & H)]].
    - left. auto 10.
    - right. left. destruct H as (n & typ & -> & Ht & _ & H).
      repeat (split; [reflexivity|]). exists n, typ.
      rewrite Ht, Hty. split; [reflexivity|]. split; [reflexivity|].
      destruct H as [(Hda' & Hk & H) | (Hda' & Hk & Ha)].
      + split; [intro Hn; rewrite Hda', Hda in Hn; now contradiction Hn|].
        destruct H as [(-> & Hl) | (-> & Ha)].
        * left. split; [reflexivity|]. now rewrite <- Hak.
        * right. split; [discriminate|]. now rewrite <- Hak.
      + split; [intros _; exact Hk|]. right.
        split; [intros ->; discriminate|]. now rewrite <- Hak.
    - right. right. destruct H as (n & typ & -> & Ht & Hk & Hp & Hda' & _ & H).
      repeat (split; [reflexivity|]). exists n, typ.
      rewrite <- Hty. split; [reflexivity|]. split; [exact Ht|].
      split; [exact Hp|]. split; [now rewrite Hda'|].
      destruct H as [(-> & Hl) | (-> & Ha)].
      + left. split; [reflexivity|]. now rewrite <- Hak.
      + right. split; [discriminate|]. now rewrite <- Hak. }
  unfold read. destruct (decoder_Token (decoder c)) as [[token e] d]. fields.
  destruct e as [e|].
  { intro H. injection H as <- <- <-. right. left. fields.
    repeat split; try assumption; discriminate. }
  destruct (top_is typObject (types c) && negb (is_rbrace token)).
  - destruct token;
      try (intro H; injection H as <- <- <-; right; left; fields;
           repeat split; try assumption; discriminate).
    fields. destruct (decoder_Token d) as [[token2 e2] d2]. fields.
    destruct e2 as [e|].
    { intro H. injection H as <- <- <-. right. left. fields.
      repeat split; try assumption; discriminate. }
    intro H. right. apply Hsw in H; fields; auto.
  - intro H. right. apply Hsw in H; fields; auto.
Qed.

(** X1. Every pull returns a token or an error, never both and never
    neither: the nil test on the token in the loop of [Convert] always
    succeeds, and the unchecked index of [outputEnd] is never reached
    with an empty frame stack. *)
Theorem Token_token_or_error (c : Converter D) :
  (exists t, fst (Token FormatFloat c) = (Some t, None))
  \/ (exists e, fst (Token FormatFloat c) = (None, Some e)).
Proof.
  destruct (Token FormatFloat c) as [[tk err] c'] eqn:E. cbn [fst].
  apply Token_shape in E.
  destruct E as [(text & _ & -> & -> & _) | [H | [H | H]]].
  - eauto.
  - destruct H as (_ & _ & -> & He & _).
    destruct err as [e|]; [eauto | now contradiction He].
  - destruct H as (_ & _ & -> & n & typ & -> & _). eauto.
  - destruct H as (_ & -> & n & typ & -> & _). eauto.
Qed.

(** X12. A pull that fails hands out no token and leaves the frame
    stack, the pending text and the array bindings as they were; at most
    it has pushed the key it had just read. *)
Theorem Token_error_keeps_frames (c : Converter D) tk (e : error) c' :
  Token FormatFloat c = (tk, Some e, c') ->
  tk = None
  /\ types c' = types c /\ data c' = data c /\ arrayKeys c' = arrayKeys c
  /\ (keyNames c' = keyNames c \/ exists k, keyNames c' = keyNames c ++ [k]).
Proof.
  unfold Token. destruct (data c) as [text|] eqn:Hd; [discriminate|].
  destruct (scalar_on_top (types c)).
  { intro H. apply ret_end_shape in H. destruct H as [H _]. discriminate H. }
  assert (Hsw : forall token (cm : Converter D),
             Token_switch FormatFloat token cm = (tk, Some e, c') ->
             tk = None /\ c' = cm).
  { intros token cm H. apply Token_switch_shape in H.
    destruct H as [(-> & _ & ->) | [(H & _) | (H & _)]];
      [auto | discriminate H | discriminate H]. }
  unfold read. destruct (decoder_Token (decoder c)) as [[token e1] d]. fields.
  destruct e1 as [e1|].
  { intro H. injection H as <- _ <-. fields. auto 6. }
  destruct (top_is typObject (types c) && negb (is_rbrace token)).
  - destruct token;
      try (intro H; injection H as <- _ <-; fields; now auto 6).
    fields. destruct (decoder_Token d) as [[token2 e2] d2]. fields.
    destruct e2 as [e2|].
    { intro H. injection H as <- _ <-. fields. eauto 7. }
    intro H. apply Hsw in H. destruct H as [-> ->]. fields. eauto 7.
  - intro H. apply Hsw in H. destruct H as [-> ->]. fields. auto 6.
Qed.

(** *** Depth *)

Lemma pulls_count (c c' : Converter D) (out : list xtoken) :
  pulls FormatFloat c out c' ->
  starts out + List.length (types c) = ends out + List.length (types c').
Proof.
  induction 1 as [c|c t c1 out c2 Ht _ IH]; [reflexivity|].
  change (t :: out) with ([t] ++ out). rewrite starts_app, ends_app.
  apply Token_shape in Ht.
  destruct Ht as [(text & _ & Ht & _ & ->) | [(_ & _ & Ht & _) | [H | H]]].
  - injection Ht as ->. fields. cbn in *. lia.
  - discriminate Ht.
  - destruct H as (_ & _ & _ & n & typ & Ht & Hty & _).
    injection Ht as ->. rewrite Hty, length_app in IH. cbn in *. lia.
  - destruct H as (_ & _ & n & typ & Ht & Htop & Hty & _).
    injection Ht as ->. rewrite (length_pop _ Htop). rewrite Hty in IH.
    cbn in *. lia.
Qed.

(** X3. The frame stack counts the open elements.  Over any pulls that
    succeed, the start tags handed out and the frames open before equal
    the end tags handed out and the frames open after. *)
Theorem pulls_depth (c c' : Converter D) (out : list xtoken) :
  pulls FormatFloat c out c' ->
  starts out + List.length (types c) = ends out + List.length (types c').
Proof. exact (@pulls_count c c' out). Qed.

Lemma pulls_split (c c' : Converter D) (o1 o2 : list xtoken) :
  pulls FormatFloat c (o1 ++ o2) c' ->
  exists cm, pulls FormatFloat c o1 cm /\ pulls FormatFloat cm o2 c'.
Proof.
  revert c. induction o1 as [|t o1 IH]; intros c H.
  - exists c. split; [constructor | exact H].
  - cbn in H. inversion H as [|c0 t0 c1 out c2 Ht Hp]; subst.
    destruct (IH _ Hp) as (cm & H1 & H2).
    exists cm. split; [econstructor; eassumption | exact H2].
Qed.

(** X4. From a fresh converter, whatever the source delivers, no prefix
    of the tokens handed out has more end tags than start tags. *)
Theorem ends_never_exceed_starts (j : D) (o1 o2 : list xtoken)
    (c' : Converter D) :
  pulls FormatFloat (Tokens j) (o1 ++ o2) c' ->
  ends o1 <= starts o1.
Proof.
  intro H. apply pulls_split in H. destruct H as (cm & H1 & _).
  apply pulls_count in H1. cbn in H1. lia.
Qed.

(** *** Scalars stay on top *)

Lemma Token_tidy (c : Converter D) tk err c' :
  tidy c -> Token FormatFloat c = (tk, err, c') -> tidy c'.
Proof.
  intros [Hc Hp] H. apply Token_shape in H.
  destruct H as [(text & Hd & _ & _ & ->) | [H | [H | H]]].
  - split; [exact Hc | fields; intro Hn; now contradiction Hn].
  - destruct H as (_ & _ & _ & _ & Hty & Hda & _). unfold tidy.
    split; [now rewrite Hty | intro Hn; now contradiction Hn].
  - destruct H as (_ & Hs & _ & n & typ & _ & Hty & Hda & _).
    unfold tidy. rewrite Hty. split.
    + rewrite pop_snoc. now apply containers_below.
    + intro Hn. rewrite scalar_on_top_snoc. specialize (Hda Hn).
      now destruct typ.
  - destruct H as (_ & _ & n & typ & _ & _ & Hty & Hda & _).
    unfold tidy. rewrite Hty. split; [now apply forallb_pop|].
    intro Hn. now contradiction Hn.
Qed.

Lemma pulls_tidy (c c' : Converter D) out :
  pulls FormatFloat c out c' -> tidy c -> tidy c'.
Proof.
  induction 1 as [c|c t c1 out c2 Ht _ IH]; [auto|].
  intro H. apply IH. eapply Token_tidy; eassumption.
Qed.

(** X5. From a fresh converter, whenever a pull hands out character data,
    the next pull hands out an end tag, without going to the source: the
    text of a scalar is always followed at once by the end of its
    element. *)
Theorem text_then_end (j : D) (out : list xtoken) (c c1 : Converter D)
    (text : string) :
  pulls FormatFloat (Tokens j) out c ->
  Token FormatFloat c = (Some (CharData text), None, c1) ->
  exists n c2,
    Token FormatFloat c1 = (Some (EndElement n), None, c2)
    /\ decoder c2 = decoder c
    /\ types c2 = pop (types c).
Proof.
  intros Hp Ht.
  assert (Hfresh : tidy (Tokens j))
    by (split; [reflexivity | intro Hn; now contradiction Hn]).
  pose proof (pulls_tidy Hp Hfresh) as [_ Htop].
  apply Token_shape in Ht.
  destruct Ht as [(text' & Hd & _ & _ & ->) | [H | [H | H]]].
  - assert (Hs : scalar_on_top (types c) = true)
      by (apply Htop; rewrite Hd; discriminate).
    rewrite Token_closes_scalar by (fields; auto).
    destruct (ret_end (set_data c None)) as [[tk err] c2] eqn:E.
    apply ret_end_shape in E. destruct E as [-> E]. fields.
    unfold scalar_on_top in Hs.
    destruct E as [(_ & _ & Hn) | (n & typ & -> & _ & Hty & _ & Hdec & _)];
      [rewrite Hn in Hs; discriminate|].
    exists n, c2. auto.
  - destruct H as (_ & _ & Hn & _). discriminate Hn.
  - destruct H as (_ & _ & _ & n & typ & Hn & _). discriminate Hn.
  - destruct H as (_ & _ & n & typ & Hn & _). discriminate Hn.
Qed.

(** *** Bindings and open arrays *)

Lemma open_arrays_snoc (ts : list ttype) (typ : ttype) :
  open_arrays (ts ++ [typ])
  = open_arrays ts + (if ttype_eqb typ typArray then 1 else 0).
Proof.
  unfold open_arrays. rewrite filter_app, length_app. cbn.
  now destruct (ttype_eqb typ typArray).
Qed.

Lemma Token_bindings (c : Converter D) tk err c' :
  List.length (arrayKeys c) <= open_arrays (types c) ->
  Token FormatFloat c = (tk, err, c') ->
  List.length (arrayKeys c') <= open_arrays (types c').
Proof.
  intros Hle H. apply Token_shape in H.
  destruct H as [(text & _ & _ & _ & ->) | [H | [H | H]]].
  - exact Hle.
  - destruct H as (_ & _ & _ & _ & -> & _ & ->). exact Hle.
  - destruct H as (_ & _ & _ & n & typ & _ & -> & _ & H).
    rewrite open_arrays_snoc.
    destruct H as [(-> & Hl) | (Hn & ->)]; [cbn; lia|].
    destruct (ttype_eqb typ typArray); lia.
  - destruct H as (_ & _ & n & typ & _ & Htop & -> & _ & H).
    rewrite (top_Some_snoc _ Htop), open_arrays_snoc in Hle.
    destruct H as [(-> & Hl) | (Hn & ->)]; [cbn in Hle; lia|].
    destruct typ; cbn in Hle; try lia. now contradiction Hn.
Qed.

(** X6. From a fresh converter, whatever the source delivers, the stack of
    array bindings never holds more names than there are arrays open; in
    particular it is empty whenever no frame is open. *)
Theorem bindings_within_open_arrays (j : D) (out : list xtoken)
    (c : Converter D) :
  pulls FormatFloat (Tokens j) out c ->
  List.length (arrayKeys c) <= open_arrays (types c)
  /\ (types c = [] -> arrayKeys c = []).
Proof.
  intro Hp.
  assert (H : List.length (arrayKeys c) <= open_arrays (types c)).
  { remember (Tokens j) as c0 eqn:E0.
    assert (H0 : List.length (arrayKeys c0) <= open_arrays (types c0))
      by (subst c0; cbn; lia).
    clear E0. induction Hp as [c|c t c1 out c2 Ht _ IH]; [exact H0|].
    apply IH. eapply Token_bindings; eassumption. }
  split; [exact H|]. intro Hty. rewrite Hty in H. cbn in H.
  destruct (arrayKeys c); [reflexivity | cbn in H; lia].
Qed.
End PullShape.

(** ** Unknown tokens *)

Section UnknownTokens.
Variable FormatFloat : float64 -> string.
Context {D : Type} {JD : JSONDecoder D}.

Lemma Token_switch_unknown token (c : Converter D) :
  unknown token = true ->
  Token_switch FormatFloat token c = ret_error ErrUnknownToken c.
Proof.
  destruct token as [r| | | | | |]; try discriminate; [|reflexivity].
  cbn [unknown Token_switch].
  destruct (Z.eqb r lbrace), (Z.eqb r lbrack), (Z.eqb r rbrace),
    (Z.eqb r rbrack); try discriminate. reflexivity.
Qed.

(** X2. A pull that reads, where a value is expected, a delimiter other
    than the four brackets or a value of an unexpected type fails with
    [ErrUnknownToken] and hands out no XML token.  Read as the value of a
    key, the token fails the same way and the key stays on [keyNames]. *)
Theorem Token_unknown (c : Converter D) (token : jtoken) :
  data c = None ->
  scalar_on_top (types c) = false ->
  unknown token = true ->
  (forall d',
      decoder_Token (decoder c) = (token, None, d') ->
      top_is typObject (types c) = false ->
      Token FormatFloat c = (None, Some ErrUnknownToken, set_decoder c d'))
  /\ (forall k d1 d2,
      decoder_Token (decoder c) = (JString k, None, d1) ->
      decoder_Token d1 = (token, None, d2) ->
      top (types c) = Some typObject ->
      Token FormatFloat c =
      (None, Some ErrUnknownToken,
       mkConverter d2 (types c) None (keyNames c ++ [k]) (arrayKeys c))).
Proof.
  intros Hd Hs Hu. split.
  - intros d' Hr Ht.
    rewrite (Token_plain FormatFloat c Hd Hr) by (try assumption; now rewrite Ht).
    rewrite Token_switch_unknown by exact Hu.
    unfold ret_error, set_decoder. now rewrite Hd.
  - intros k d1 d2 Hr1 Hr2 Ht.
    rewrite (Token_key FormatFloat c Hd Ht Hr1 Hr2).
    now rewrite Token_switch_unknown.
Qed.
End UnknownTokens.

(** A colon reported as a delimiter where the root value is expected. *)
Lemma Token_unknown_witness :
  Token FormatFloat_integral (Tokens [JDelim 58])
  = (None, Some ErrUnknownToken, Tokens []).
Proof.
  apply (proj1 (@Token_unknown FormatFloat_integral (list jtoken) Script
                  (Tokens [JDelim 58]) (JDelim 58)
                  eq_refl eq_refl eq_refl) []).
  - reflexivity.
  - reflexivity.
Defined.

(** ** How far a pull reads *)

Section Lookahead.
Variable FormatFloat : float64 -> string.

(** X7. Over a token list, a pull consumes at most two tokens; none
    while a text is pending or a scalar frame is open, and two only when
    an object is on top (a key and the first token of its value). *)
Theorem Token_reads_at_most_two (c : Converter (list jtoken)) :
  exists n,
    n <= 2
    /\ decoder (snd (Token FormatFloat c)) = skipn n (decoder c)
    /\ (data c <> None \/ scalar_on_top (types c) = true -> n = 0)
    /\ (n = 2 -> top (types c) = Some typObject).
Proof.
  assert (Hread : forall n : nat,
             None <> @None string \/ false = true -> n = 0)
    by (intros n [H | H]; [now contradiction H | discriminate]).
  unfold Token. destruct (data c) as [text|] eqn:Hd.
  { exists 0. cbn. repeat split; auto; lia. }
  destruct (scalar_on_top (types c)) eqn:Hs.
  { exists 0. rewrite ret_end_decoder. cbn. repeat split; auto; lia. }
  unfold read. destruct (decoder c) as [|t d] eqn:Hdec.
  { exists 0. cbn. repeat split; auto; lia. }
  cbn [decoder_Token Script]. fields.
  destruct (top_is typObject (types c) && negb (is_rbrace t)) eqn:Ho.
  - apply andb_true_iff in Ho. destruct Ho as [Ho _].
    apply top_is_true in Ho.
    assert (H1 : exists n,
               n <= 2 /\ d = skipn n (t :: d)
               /\ (None <> @None string \/ false = true -> n = 0)
               /\ (n = 2 -> top (types c) = Some typObject))
      by (exists 1; repeat split; auto; lia).
    destruct t; try exact H1. fields.
    destruct d as [|t2 d2].
    { exists 1. cbn. repeat split; auto; lia. }
    cbn [decoder_Token Script]. fields.
    exists 2. rewrite Token_switch_decoder. cbn. repeat split; auto.
  - exists 1. rewrite Token_switch_decoder. cbn. repeat split; auto; lia.
Qed.
End Lookahead.

(** ** The driver writes what the converter hands out *)

Section Drained.
Variable FormatFloat : float64 -> string.
Context {D : Type} {JD : JSONDecoder D}.

Lemma Convert_loop_drain (fuel : nat) :
  forall (c : Converter D) (w out : list xtoken) e c',
    drain FormatFloat fuel c = Some (out, e, c') ->
    Convert_loop FormatFloat fuel c (mkRecorder w)
    = Some (if is_EOF e then Break else Return e, mkRecorder (w ++ out)).
Proof.
  induction fuel as [|fuel IH]; intros c w out e c' H; [discriminate|].
  cbn [drain] in H. cbn [Convert_loop]. unfold loop_body.
  destruct (Token FormatFloat c) as [[tk err] c1].
  destruct err as [e1|].
  - assert (Hr : out = [] /\ e = e1)
      by (destruct tk; injection H as <- <- _; auto).
    destruct Hr as [-> ->]. rewrite app_nil_r. now destruct (is_EOF e1).
  - destruct tk as [t|].
    + destruct (drain FormatFloat fuel c1) as [[[out1 e1] c2]|] eqn:E;
        [|discriminate].
      injection H as <- <- <-.
      change (EncodeToken t (mkRecorder w))
        with (@None error, mkRecorder (w ++ [t])).
      cbv iota beta. rewrite (IH _ (w ++ [t]) _ _ _ E).
      now rewrite <- app_assoc.
    + eapply IH. exact H.
Qed.

(** X9. To a sink that accepts everything, [Convert] writes the start
    tag [root] and then exactly the tokens the converter hands out before
    its first error.  If that error is [io.EOF] it adds the end tag
    [root] and succeeds; otherwise it returns the error and adds
    nothing. *)
Theorem Convert_writes_drained (fuel : nat) (j : D) (w out : list xtoken)
    (e : error) (c' : Converter D) :
  drain FormatFloat fuel (Tokens j) = Some (out, e, c') ->
  Convert FormatFloat fuel j (mkRecorder w)
  = Some (if is_EOF e then None else Some e,
          mkRecorder (w ++ StartElement root :: out
                        ++ if is_EOF e then [EndElement root] else [])).
Proof.
  intro H. unfold Convert. fold (Tokens j).
  change (EncodeToken (StartElement root) (mkRecorder w))
    with (@None error, mkRecorder (w ++ [StartElement root])).
  cbv iota beta.
  rewrite (Convert_loop_drain _ _ (w ++ [StartElement root]) H).
  destruct (is_EOF e).
  - change (EncodeToken (EndElement root) ?x)
      with (@None error, mkRecorder (written x ++ [EndElement root])).
    cbn [written]. now rewrite <- !app_assoc.
  - now rewrite <- !app_assoc, app_nil_r.
Qed.
End Drained.

(** An object opened and then closed by the wrong bracket: the start tags
    stay written, the error comes back, no end tag is added. *)
Lemma Convert_writes_drained_witness :
  Convert FormatFloat_integral 2 [JDelim lbrace; JDelim rbrack] (mkRecorder [])
  = Some (Some ErrInvalidKey,
          mkRecorder [StartElement "root"; StartElement "object"]).
Proof.
  exact (@Convert_writes_drained FormatFloat_integral (list jtoken) Script 2
           [JDelim lbrace; JDelim rbrack] [] [StartElement "object"]
           ErrInvalidKey (mkConverter [] [typObject] None [] []) eq_refl).
Defined.

(** ** The output for tame documents *)

Section TameRuns.
Variable FormatFloat : float64 -> string.

Lemma scalar_tokens (s : jvalue) :
  is_scalar_value s = true ->
  exists tok,
    tokens_of s = [tok]
    /\ scalar_frame FormatFloat tok
       = Some (kind_of s, text_of FormatFloat s).
Proof. destruct s; try discriminate; intros _; cbn; eauto. Qed.

Lemma scalar_xml (s : jvalue) (name : string) :
  is_scalar_value s = true ->
  xml_of FormatFloat name s
  = [StartElement name; CharData (text_of FormatFloat s);
     EndElement (ttypeNames (kind_of s))].
Proof. destruct s; try discriminate; reflexivity. Qed.

Lemma scalar_renders (v : jvalue) :
  is_scalar_value v = true -> renders FormatFloat v.
Proof.
  intros Hv T ks t ts rest Ht Hks name.
  destruct (scalar_tokens v Hv) as (tok & Htok & Hs).
  rewrite Htok in Ht. injection Ht as <- <-. cbn [app].
  rewrite Token_switch_scalar with (1 := Hs).
  unfold outputType, set_data, ret_token. fields.
  assert (Hks' : ks = [] \/ (exists k, ks = [k]))
    by (destruct Hks as [-> | (k & -> & _)]; eauto).
  rewrite outputStart_unbound by exact Hks'. cbn [fst snd].
  eexists. eexists. split; [reflexivity|]. split.
  - econstructor; [reflexivity|]. econstructor; [|constructor].
    rewrite Token_closes_scalar;
      [apply ret_end_by_kind | reflexivity
       | fields; rewrite scalar_on_top_snoc; eapply scalar_frame_kind;
         exact Hs].
  - now rewrite scalar_xml.
Qed.

(** A scalar inside an array bound to [k]: opened and closed under [k],
    the key staying in place. *)
Lemma bound_scalar_pulls (s : jvalue) (k : string) T rest :
  is_scalar_value s = true ->
  pulls FormatFloat
    (mkConverter (tokens_of s ++ rest) (T ++ [typArray]) None [k] [k])
    [StartElement k; CharData (text_of FormatFloat s); EndElement k]
    (mkConverter rest (T ++ [typArray]) None [k] [k]).
Proof.
  intro Hv. destruct (scalar_tokens s Hv) as (tok & Htok & Hs).
  rewrite Htok. cbn [app].
  assert (Ha : top_is typObject (T ++ [typArray]) = false)
    by now rewrite top_is_snoc.
  assert (Hk : scalar_on_top (T ++ [typArray]) = false)
    by now rewrite scalar_on_top_snoc.
  assert (H1 : Token FormatFloat
                 (mkConverter (tok :: rest) (T ++ [typArray]) None [k] [k])
               = (Some (StartElement k), None,
                  mkConverter rest ((T ++ [typArray]) ++ [kind_of s])
                    (Some (text_of FormatFloat s)) [k] [k])).
  { rewrite (@Token_plain FormatFloat _ Script _ tok rest);
      try reflexivity; fields; [| exact Hk | now rewrite Ha].
    rewrite Token_switch_scalar with (1 := Hs).
    unfold outputType, outputStart, ret_token, bound_to. fields.
    cbn [top]. now rewrite String.eqb_refl. }
  econstructor; [exact H1|]. econstructor; [reflexivity|].
  econstructor; [|constructor]. fields.
  rewrite Token_closes_scalar;
    [| reflexivity
     | fields; rewrite scalar_on_top_snoc; eapply scalar_frame_kind;
       exact Hs].
  unfold ret_end, outputEnd, shared_name. fields.
  rewrite top_snoc, pop_snoc. cbn [top]. now rewrite String.eqb_refl.
Qed.

Lemma bound_elems_pulls (vs : list jvalue) (k : string) T rest :
  forallb is_scalar_value vs = true ->
  pulls FormatFloat
    (mkConverter (elems_tokens vs ++ rest) (T ++ [typArray]) None [k] [k])
    (bound_elems FormatFloat k vs)
    (mkConverter rest (T ++ [typArray]) None [k] [k]).
Proof.
  induction vs as [|s vs IH]; intro H; [constructor|].
  cbn [forallb] in H. apply andb_true_iff in H. destruct H as [Hs Hvs].
  cbn [elems_tokens bound_elems flat_map].
  fold (elems_tokens vs). fold (bound_elems FormatFloat k vs).
  rewrite <- app_assoc.
  apply pulls_app with (2 := IH Hvs).
  now apply bound_scalar_pulls.
Qed.

(** A field whose value is an array of scalars: the array and each of its
    elements are opened and closed under the key, and the key is gone
    once the array is closed. *)
Lemma bound_array_pulls (k : string) (vs : list jvalue) T rest :
  forallb is_scalar_value vs = true ->
  pulls FormatFloat
    (mkConverter (JString k :: tokens_of (VArray vs) ++ rest)
       (T ++ [typObject]) None [] [])
    (StartElement k :: bound_elems FormatFloat k vs ++ [EndElement k])
    (mkConverter rest (T ++ [typObject]) None [] []).
Proof.
  intro Hvs. cbn [tokens_of]. fold (elems_tokens vs).
  cbn [app]. rewrite <- app_assoc. cbn [app].
  assert (H1 : Token FormatFloat
                 (mkConverter
                    (JString k :: JDelim lbrack
                       :: elems_tokens vs ++ JDelim rbrack :: rest)
                    (T ++ [typObject]) None [] [])
               = (Some (StartElement k), None,
                  mkConverter (elems_tokens vs ++ JDelim rbrack :: rest)
                    ((T ++ [typObject]) ++ [typArray]) None [k] [k])).
  { rewrite (@Token_key FormatFloat _ Script _ k (JDelim lbrack)
               (JDelim lbrack :: elems_tokens vs ++ JDelim rbrack :: rest)
               (elems_tokens vs ++ JDelim rbrack :: rest));
      try reflexivity; [|apply top_snoc].
    rewrite Token_switch_lbrack. fields. cbn [app top].
    unfold outputStart, ret_token, bound_to. fields. cbn [top].
    now rewrite String.eqb_refl. }
  econstructor; [exact H1|].
  apply pulls_snoc with (1 := @bound_elems_pulls vs k (T ++ [typObject])
                                 (JDelim rbrack :: rest) Hvs).
  rewrite (@Token_plain FormatFloat _ Script _ (JDelim rbrack) rest);
    try reflexivity; fields;
    [| now rewrite scalar_on_top_snoc | now rewrite top_is_snoc].
  rewrite Token_switch_rbrack. fields. rewrite top_is_snoc.
  cbn [ttype_eqb negb]. unfold ret_end, outputEnd, shared_name. fields.
  rewrite top_snoc, pop_snoc. reflexivity.
Qed.

(** The fields of a tame object, read with its frame on top and both key
    stacks empty. *)
Lemma members_render (ms : list (string * jvalue)) :
  Forall (tame_field FormatFloat) ms ->
  forall T rest,
    pulls FormatFloat
      (mkConverter (members_tokens ms ++ rest) (T ++ [typObject]) None [] [])
      (flat_map (field_xml FormatFloat) ms)
      (mkConverter rest (T ++ [typObject]) None [] []).
Proof.
  induction 1 as [|[k v] ms Hv _ IH]; intros T rest; [constructor|].
  cbn [members_tokens flat_map fst snd app].
  rewrite <- app_assoc. fold (members_tokens ms).
  apply pulls_app with (2 := IH T rest).
  unfold tame_field, field_xml in *. cbn [fst snd] in *.
  destruct (is_array v) eqn:Ha.
  - destruct v; try discriminate Ha. cbn [elems_of] in *.
    now apply bound_array_pulls.
  - destruct (tokens_of_first v) as (t & ts & Hv0).
    destruct (Hv (T ++ [typObject]) [k] t ts (members_tokens ms ++ rest) Hv0)
      as (c1 & out & Hsw & Hp & Hx); [right; eauto|].
    rewrite <- Hx, Hv0. cbn [app].
    econstructor; [|exact Hp]. rewrite <- Hsw.
    apply (@Token_key FormatFloat _ Script
             (mkConverter (JString k :: t :: ts ++ members_tokens ms ++ rest)
                (T ++ [typObject]) None [] [])
             k t (t :: ts ++ members_tokens ms ++ rest));
      try reflexivity.
    apply top_snoc.
Qed.

(** The elements of an array that is bound to no key. *)
Lemma elems_render (vs : list jvalue) :
  Forall (renders FormatFloat) vs ->
  forall T rest,
    pulls FormatFloat
      (mkConverter (elems_tokens vs ++ rest) (T ++ [typArray]) None [] [])
      (flat_map (fun v => xml_of FormatFloat (ttypeNames (kind_of v)) v) vs)
      (mkConverter rest (T ++ [typArray]) None [] []).
Proof.
  induction 1 as [|v vs Hv _ IH]; intros T rest; [constructor|].
  cbn [elems_tokens flat_map]. rewrite <- app_assoc. fold (elems_tokens vs).
  apply pulls_app with (2 := IH T rest).
  destruct (tokens_of_first v) as (t & ts & Hv0).
  destruct (Hv (T ++ [typArray]) [] t ts (elems_tokens vs ++ rest) Hv0)
    as (c1 & out & Hsw & Hp & Hx); [now left|].
  cbn [app] in Hx. rewrite <- Hx, Hv0. cbn [app].
  econstructor; [|exact Hp]. rewrite <- Hsw.
  apply (@Token_plain FormatFloat _ Script
           (mkConverter (t :: ts ++ elems_tokens vs ++ rest)
              (T ++ [typArray]) None [] [])
           t (ts ++ elems_tokens vs ++ rest));
    try reflexivity; fields.
  - now rewrite scalar_on_top_snoc.
  - now rewrite top_is_snoc.
Qed.

Lemma tame_renders (v : jvalue) : tame v = true -> renders FormatFloat v.
Proof.
  induction v as [ms IH|vs IH|b|f|s|s|] using jvalue_induction; intro Htame;
    try (apply scalar_renders; reflexivity).
  - intros T ks t ts rest Ht Hks name. cbn [tokens_of] in Ht.
    fold (members_tokens ms) in Ht. injection Ht as <- <-.
    rewrite <- app_assoc. cbn [app].
    assert (Hks' : ks = [] \/ (exists k, ks = [k]))
      by (destruct Hks as [-> | (k & -> & _)]; eauto).
    rewrite Token_switch_lbrace. unfold ret_token.
    rewrite outputStart_unbound by exact Hks'. cbn [fst snd].
    assert (Hall : Forall (tame_field FormatFloat) ms).
    { cbn [tame] in Htame. rewrite forallb_forall in Htame.
      rewrite Forall_forall in IH |- *. intros kv Hin.
      specialize (Htame kv Hin). specialize (IH kv Hin).
      unfold tame_field. destruct (is_array (snd kv)); auto. }
    eexists. eexists. split; [reflexivity|]. split.
    + apply pulls_snoc with (1 := members_render Hall T (JDelim rbrace :: rest)).
      rewrite (@Token_plain FormatFloat _ Script
                 (mkConverter (JDelim rbrace :: rest) (T ++ [typObject])
                    None [] [])
                 (JDelim rbrace) rest);
        try reflexivity.
      * rewrite Token_switch_rbrace. fields. rewrite top_is_snoc.
        cbn [ttype_eqb negb]. apply ret_end_by_kind.
      * fields. now rewrite scalar_on_top_snoc.
      * apply andb_false_r.
    + reflexivity.
  - intros T ks t ts rest Ht Hks name. cbn [tokens_of] in Ht.
    fold (elems_tokens vs) in Ht. injection Ht as <- <-.
    rewrite <- app_assoc. cbn [app].
    assert (Hk : ks = []) by (destruct Hks as [-> | (k & _ & Hn)];
                              [reflexivity | discriminate Hn]).
    subst ks name. rewrite Token_switch_lbrack. fields. cbn [top].
    unfold ret_token. rewrite outputStart_unbound by now left.
    cbn [fst snd].
    assert (Hall : Forall (renders FormatFloat) vs).
    { cbn [tame] in Htame. rewrite forallb_forall in Htame.
      rewrite Forall_forall in IH |- *. intros v Hin.
      apply IH; auto. }
    eexists. eexists. split; [reflexivity|]. split.
    + apply pulls_snoc with (1 := elems_render Hall T (JDelim rbrack :: rest)).
      rewrite (@Token_plain FormatFloat _ Script
                 (mkConverter (JDelim rbrack :: rest) (T ++ [typArray])
                    None [] [])
                 (JDelim rbrack) rest);
        try reflexivity; fields.
      * rewrite Token_switch_rbrack. fields. rewrite top_is_snoc.
        cbn [ttype_eqb negb]. apply ret_end_by_kind.
      * now rewrite scalar_on_top_snoc.
      * now rewrite top_is_snoc.
    + reflexivity.
Qed.

(** X11. For a document in which every array that is the value of a field
    holds scalars only, [Convert] succeeds and writes, between the two
    [root] tags, exactly [xml_of]: every element is opened under its key,
    or under the name of its kind at the root and inside a keyless array,
    and closed under the name of its kind; an array under a key [k] and
    each of its scalars are opened and closed under [k]. *)
Theorem Convert_tame (v : jvalue) :
  tame v = true ->
  exists fuel,
    Convert FormatFloat fuel (tokens_of v) (mkRecorder [])
    = Some (None,
            mkRecorder
              (StartElement root
                 :: xml_of FormatFloat (ttypeNames (kind_of v)) v
                 ++ [EndElement root])).
Proof.
  intro Htame. destruct (tokens_of_first v) as (t & ts & Hv).
  apply tame_renders in Htame.
  destruct (Htame [] [] t ts [] Hv) as (c1 & out & Hsw & Hp & Hx);
    [now left|].
  cbn [app] in Hx. rewrite app_nil_r in Hsw.
  assert (Hfirst : pulls FormatFloat (Tokens (tokens_of v))
                     (xml_of FormatFloat (ttypeNames (kind_of v)) v)
                     (mkConverter [] [] None [] [])).
  { rewrite <- Hx, Hv. econstructor; [|exact Hp]. rewrite <- Hsw. reflexivity. }
  destruct (@Convert_loop_Recorder FormatFloat _ _ _ Hfirst None
              (mkConverter [] [] None [] []) [StartElement root] eq_refl)
    as [fuel Hf].
  exists fuel. unfold Convert. fold (Tokens (tokens_of v)).
  change (EncodeToken (StartElement root) (mkRecorder []))
    with (@None error, mkRecorder [StartElement root]).
  cbv iota beta. rewrite Hf. reflexivity.
Qed.
End TameRuns.

(** A document with a keyed array of scalars, a scalar field and a
    null. *)
Lemma Convert_tame_witness :
  exists fuel,
    Convert FormatFloat_integral fuel
      (tokens_of (VObject [("tags", VArray [VString "x"; VBool true]);
                           ("a", VFloat (float64_of_Z 1));
                           ("n", VNull)]))
      (mkRecorder [])
    = Some (None,
            mkRecorder
              [StartElement "root"; StartElement "object";
               StartElement "tags";
               StartElement "tags"; CharData "x"; EndElement "tags";
               StartElement "tags"; CharData "true"; EndElement "tags";
               EndElement "tags";
               StartElement "a"; CharData "1"; EndElement "number";
               StartElement "n"; CharData EmptyString; EndElement "null";
               EndElement "object"; EndElement "root"]).
Proof.
  exact (@Convert_tame FormatFloat_integral
           (VObject [("tags", VArray [VString "x"; VBool true]);
                     ("a", VFloat (float64_of_Z 1));
                     ("n", VNull)])
           eq_refl).
Defined.

(** ** The invariants on a sample run *)

Lemma sample_pulls :
  pulls FormatFloat_integral (Tokens sample_tokens)
    ([StartElement "object"; StartElement "a"] ++ [StartElement "a"])
    sample_state.
Proof.
  econstructor; [reflexivity|]. econstructor; [reflexivity|].
  econstructor; [reflexivity|]. constructor.
Qed.

(** Three start tags, no end tag, three frames open. *)
Lemma pulls_depth_witness :
  starts [StartElement "object"; StartElement "a"; StartElement "a"]
  + List.length (types (Tokens sample_tokens))
  = ends [StartElement "object"; StartElement "a"; StartElement "a"]
    + List.length (types sample_state).
Proof. exact (pulls_depth sample_pulls). Defined.

Lemma ends_never_exceed_starts_witness :
  ends [StartElement "object"; StartElement "a"]
  <= starts [StartElement "object"; StartElement "a"].
Proof.
  exact (@ends_never_exceed_starts FormatFloat_integral (list jtoken) Script
           sample_tokens [StartElement "object"; StartElement "a"]
           [StartElement "a"] sample_state sample_pulls).
Defined.

(** The text of the number, then the end of its element. *)
Lemma text_then_end_witness :
  exists n c2,
    Token FormatFloat_integral (set_data sample_state None)
    = (Some (EndElement n), None, c2)
    /\ decoder c2 = decoder sample_state
    /\ types c2 = pop (types sample_state).
Proof.
  exact (@text_then_end FormatFloat_integral (list jtoken) Script
           sample_tokens _ sample_state (set_data sample_state None) "1"
           sample_pulls eq_refl).
Defined.

(** One binding, one array open. *)
Lemma bindings_within_open_arrays_witness :
  List.length (arrayKeys sample_state) <= open_arrays (types sample_state)
  /\ (types sample_state = [] -> arrayKeys sample_state = []).
Proof. exact (bindings_within_open_arrays sample_pulls). Defined.

(** A key, then a closing bracket where its value should be: the pull
    fails, nothing is opened, the key stays. *)
Lemma Token_error_keeps_frames_witness :
  let c := mkConverter [JString "a"; JDelim rbrack] [typObject] None [] [] in
  let c' := mkConverter (@nil jtoken) [typObject] None ["a"] [] in
  @None xtoken = None
  /\ types c' = types c /\ data c' = data c /\ arrayKeys c' = arrayKeys c
  /\ (keyNames c' = keyNames c \/ exists k, keyNames c' = keyNames c ++ [k]).
Proof.
  exact (@Token_error_keeps_frames FormatFloat_integral (list jtoken) Script
           (mkConverter [JString "a"; JDelim rbrack] [typObject] None [] [])
           None ErrInvalidToken
           (mkConverter [] [typObject] None ["a"] []) eq_refl).
Defined.
